(** * Sequence detector: the KMP-like automaton builder and the
      multi-pattern stream detector of [main.py], embedded in Rocq.

    Python values are modelled as follows.
    - A [str] is the list of its Unicode code points ([N]); a one-character
      string such as ['0'] is the singleton list [[48]].
    - A [list] is a Rocq list; [l[i]] is the partial lookup [l !! i] and
      raises [IndexError] when it is [None].
    - A [dict] is a [gmap]; [d[k]] raises [KeyError] when [d !! k] is [None].
    - Non-negative Python integers (lengths, states, counters) are [nat].
    - Exceptions are the [Raise] results of the type [res]; the methods of
      [StreamMultiDetector] run in a state-and-exception monad over the
      object's fields, so that what an exception leaves behind is visible. *)

From stdpp Require Import ssreflect strings pretty gmap list.

Set Default Proof Using "Type".

(** ** Python strings *)

Abbreviation char := N (only parsing).
Abbreviation str := (list N) (only parsing).

(** An ASCII literal as a Python [str]. *)
Definition py (s : string) : str :=
  Ascii.N_of_ascii <$> String.list_ascii_of_string s.

(** [str.isspace] on one code point: the characters [str.strip()] removes. *)
Definition isspace (c : char) : bool :=
  ((9 <=? c) && (c <=? 13) || (28 <=? c) && (c <=? 32)
   || (c =? 133) || (c =? 160) || (c =? 5760)
   || (8192 <=? c) && (c <=? 8202)
   || (c =? 8232) || (c =? 8233) || (c =? 8239) || (c =? 8287)
   || (c =? 12288))%N.

Fixpoint lstrip (s : str) : str :=
  match s with
  | [] => []
  | c :: s' => if isspace c then lstrip s' else s
  end.

Definition rstrip (s : str) : str := reverse (lstrip (reverse s)).

(** [s.strip()]: leading, then trailing white space is removed. *)
Definition strip (s : str) : str := rstrip (lstrip s).

(** ** Exceptions *)

Inductive exn : Type :=
  | ValueError (msg : string)
  | KeyError
  | IndexError.

Inductive res (A : Type) : Type :=
  | Ok (a : A)
  | Raise (e : exn).
Arguments Ok {A} a.
Arguments Raise {A} e.

Definition res_bind {A B} (m : res A) (k : A -> res B) : res B :=
  match m with
  | Ok a => k a
  | Raise e => Raise e
  end.

Declare Scope res_scope.
Delimit Scope res_scope with res.
Notation "'let?' x ':=' m 'in' k" := (res_bind m (fun x => k))
  (at level 10, x name, m at level 100, k at level 200) : res_scope.

(** [d[k]] on a dict. *)
Definition getitem `{Countable K} {V} (d : gmap K V) (k : K) : res V :=
  match d !! k with
  | Some v => Ok v
  | None => Raise KeyError
  end.

(** [l[i]] on a list, for an index [i >= 0]. *)
Definition list_getitem {A} (l : list A) (i : nat) : res A :=
  match l !! i with
  | Some v => Ok v
  | None => Raise IndexError
  end.

(** [l[i] = v] on a list, for an index [i >= 0]. *)
Definition list_setitem {A} (l : list A) (i : nat) (v : A) : res (list A) :=
  if decide (i < length l) then Ok (<[i:=v]> l) else Raise IndexError.

(** ** [build_transitions] *)

Abbreviation row := (gmap (list N) nat) (only parsing).
Abbreviation table := (gmap nat (gmap (list N) nat)) (only parsing).

(** The keys ['0'] and ['1']. *)
Definition k0 : str := py "0".
Definition k1 : str := py "1".

(** [range(limit, -1, -1)]. *)
Definition range_down (limit : nat) : list nat := reverse (List.seq 0 (S limit)).

(** The [for size in ...] loop of [nxt], with the [return 0] that follows it. *)
Fixpoint nxt_loop (seq temp : list str) (sizes : list nat) : nat :=
  match sizes with
  | [] => 0
  | size :: sizes' =>
      let suffix :=
        if decide (0 < size) then drop (length temp - size) temp else [] in
      let prefix := take size seq in
      if decide (suffix = prefix) then size else nxt_loop seq temp sizes'
  end.

(** The closure [nxt] of [build_transitions], with the variables [seq] and
    [plen] it captures. *)
Definition nxt (seq : list str) (plen : nat) (state_len : nat) (bit : str) : nat :=
  let temp := take state_len seq ++ [bit] in
  let limit := length temp `min` plen in
  nxt_loop seq temp (range_down limit).

(** The dict display [{'0': a, '1': b}]. *)
Definition row_of (a b : nat) : row := <[k1:=b]> (<[k0:=a]> ∅).

(** The loop [for st in range(plen + 1): transitions[st] = ...]. *)
Definition fill (seq : list str) (plen : nat) : table :=
  foldl (fun transitions st =>
           <[st := row_of (nxt seq plen st k0) (nxt seq plen st k1)]> transitions)
        ∅ (List.seq 0 (plen + 1)).

(** [transitions[dst][key] = transitions[src][key]]: the right-hand side is
    evaluated first, then the row [transitions[dst]] is looked up and updated
    in place.  Every row is a dict object of its own, so that the update is
    seen through [transitions[dst]] only. *)
Definition copy_entry (transitions : table) (dst src : nat) (key : str) : res table :=
  (let? r := getitem transitions src in
   let? v := getitem r key in
   let? d := getitem transitions dst in
   Ok (<[dst := <[key:=v]> d]> transitions))%res.

Definition build_transitions (pattern : str) (allow_overlap : bool)
  : res (table * nat) :=
  let seq := (fun ch => [ch]) <$> strip pattern in
  let plen := length seq in
  let transitions := fill seq plen in
  if negb allow_overlap && bool_decide (1 <= plen) then
    (let? transitions := copy_entry transitions plen 0 k0 in
     let? transitions := copy_entry transitions plen 0 k1 in
     Ok (transitions, plen))%res
  else Ok (transitions, plen).

(** ** [StreamMultiDetector] *)

Record StreamMultiDetector : Type := {
  patterns : list str;
  allow_overlap : bool;
  tables : list table;
  plens : list nat;
  states : list nat;
  counts : list nat
}.

(** The loop of [__init__] that fills [self.tables] and [self.plens]. *)
Fixpoint init_loop (ps : list str) (allow_overlap : bool)
    (tables : list table) (plens : list nat) : res (list table * list nat) :=
  match ps with
  | [] => Ok (tables, plens)
  | p :: ps' =>
      (let? r := build_transitions p allow_overlap in
       let (t, L) := r in
       init_loop ps' allow_overlap (tables ++ [t]) (plens ++ [L]))%res
  end.

(** [StreamMultiDetector(patterns, allow_overlap)]: the object as [__init__]
    leaves it. *)
Definition __init__ (patterns : list str) (allow_overlap : bool)
  : res StreamMultiDetector :=
  (let? r := init_loop patterns allow_overlap [] [] in
   let (tables, plens) := r in
   Ok {| patterns := patterns;
         allow_overlap := allow_overlap;
         tables := tables;
         plens := plens;
         states := replicate (length patterns) 0;
         counts := replicate (length patterns) 0 |})%res.

(** Methods run over the object: they return a result and the object as the
    call leaves it, also when the call raises. *)
Definition M (A : Type) : Type := StreamMultiDetector -> res A * StreamMultiDetector.

Definition ret {A} (a : A) : M A := fun self => (Ok a, self).
Definition raise {A} (e : exn) : M A := fun self => (Raise e, self).
Definition bind {A B} (m : M A) (k : A -> M B) : M B :=
  fun self =>
    match m self with
    | (Ok a, self') => k a self'
    | (Raise e, self') => (Raise e, self')
    end.
Definition lift {A} (f : StreamMultiDetector -> res A) : M A :=
  fun self => (f self, self).

Declare Scope meth_scope.
Delimit Scope meth_scope with meth.
Notation "'let!' x ':=' m 'in' k" := (bind m (fun x => k))
  (at level 10, x name, m at level 100, k at level 200) : meth_scope.
Notation "m ';;' k" := (bind m (fun _ => k))
  (at level 100, k at level 200, right associativity) : meth_scope.

Definition with_states (self : StreamMultiDetector) (l : list nat)
  : StreamMultiDetector :=
  {| patterns := patterns self;
     allow_overlap := allow_overlap self;
     tables := tables self;
     plens := plens self;
     states := l;
     counts := counts self |}.

Definition with_counts (self : StreamMultiDetector) (l : list nat)
  : StreamMultiDetector :=
  {| patterns := patterns self;
     allow_overlap := allow_overlap self;
     tables := tables self;
     plens := plens self;
     states := states self;
     counts := l |}.

(** [self.states[i] = v]. *)
Definition set_state (i v : nat) : M unit :=
  fun self =>
    match list_setitem (states self) i v with
    | Ok l => (Ok tt, with_states self l)
    | Raise e => (Raise e, self)
    end.

(** [self.counts[i] = v]. *)
Definition set_count (i v : nat) : M unit :=
  fun self =>
    match list_setitem (counts self) i v with
    | Ok l => (Ok tt, with_counts self l)
    | Raise e => (Raise e, self)
    end.

(** A [for] loop over a list of values. *)
Fixpoint for_each {A} (l : list A) (body : A -> M unit) : M unit :=
  match l with
  | [] => ret tt
  | x :: l' => (body x ;; for_each l' body)%meth
  end.

(** The body of the loop of [step], for the index [i]. *)
Definition step_body (bit : str) (i : nat) : M unit :=
  (let! t := lift (fun self => list_getitem (tables self) i) in
   let! st := lift (fun self => list_getitem (states self) i) in
   let! r := lift (fun _ => getitem t st) in
   let! nxt := lift (fun _ => getitem r bit) in
   set_state i nxt ;;
   let! L := lift (fun self => list_getitem (plens self) i) in
   if decide (nxt = L) then
     let! c := lift (fun self => list_getitem (counts self) i) in
     set_count i (c + 1)
   else ret tt)%meth.

Definition step (bit : str) : M unit :=
  fun self =>
    if bool_decide (bit ∉ [k0; k1]) then
      raise (ValueError "Bit must be '0' or '1'") self
    else
      for_each (List.seq 0 (length (patterns self))) (step_body bit) self.

(** [snapshot]: copies of the counters and of the states. *)
Definition snapshot (self : StreamMultiDetector) : list nat * list nat :=
  (counts self, states self).

(** Feeding bits one at a time, as the loop [for ch in s: det.step(ch)] of
    [main] does; the loop stops at the first call that raises. *)
Definition feed (bits : list str) : M unit := for_each bits step.

(** Iterating over a [str] yields its one-character strings. *)
Definition chars (s : str) : list str := (fun ch => [ch]) <$> s.

(** The same loop with the [snapshot] taken after every [step]
    (lines 130-133 of [main], which prints the counters each time). *)
Fixpoint feed_trace (bits : list str) (self : StreamMultiDetector)
  : res (list (list nat * list nat)) :=
  match bits with
  | [] => Ok []
  | b :: bits' =>
      match step b self with
      | (Ok _, self') =>
          (let? rest := feed_trace bits' self' in
           Ok (snapshot self' :: rest))%res
      | (Raise e, _) => Raise e
      end
  end.

(** The [reset] branch of the loop of [main] (lines 122-124): [det] is bound
    to a detector built anew from the locals [patterns] and [allow_overlap];
    the old detector is dropped. *)
Definition reset (patterns : list str) (allow_overlap : bool)
    (det : StreamMultiDetector) : res StreamMultiDetector :=
  __init__ patterns allow_overlap.

(** The test of [prompt_patterns] (line 69) that makes it skip a line. *)
Definition rejected (line : str) : bool :=
  bool_decide (line = []) || existsb (fun c => bool_decide ([c] ∉ [k0; k1])) line.

(** ** Specification vocabulary *)

(** A pattern over the alphabet {0,1}. *)
Definition binary (p : str) : bool :=
  forallb (fun c => (c =? 48) || (c =? 49))%N p.

(** A valid input symbol: ['0'] or ['1']. *)
Definition is_bit (b : str) : Prop := b = k0 \/ b = k1.

(** [n] is the length of a suffix of [t] that is also a prefix of [pat]. *)
Definition suffix_prefix (t pat : list str) (n : nat) : Prop :=
  exists u, length u = n /\ u `suffix_of` t /\ u `prefix_of` pat.

(** [n] is the length of the longest suffix of [t] that is a prefix of [pat]. *)
Definition longest_suffix_prefix (t pat : list str) (n : nat) : Prop :=
  suffix_prefix t pat n /\ forall k, suffix_prefix t pat k -> k <= n.

(** No leading white space. *)
Definition no_lead (s : str) : Prop :=
  match s with
  | [] => True
  | c :: _ => isspace c = false
  end.

(** No trailing white space. *)
Definition no_trail (s : str) : Prop := no_lead (reverse s).

(** The test of the loop of [nxt] at the candidate length [size]. *)
Definition matches (seq temp : list str) (size : nat) : Prop :=
  (if decide (0 < size) then drop (length temp - size) temp else [])
  = take size seq.

(** The entry for state [st] and key [b] of the table that is returned:
    under the non-overlapping policy, and for a pattern that is not empty,
    the row of the accept state holds the entries of state 0. *)
Definition entry (seq : list str) (plen : nat) (allow_overlap : bool)
    (st : nat) (b : str) : nat :=
  if negb allow_overlap && bool_decide (1 <= plen) && bool_decide (st = plen)
  then nxt seq plen 0 b
  else nxt seq plen st b.

(** ** Well-formed detectors *)

(** Both keys of the row lead to a state of {0,...,L}. *)
Definition row_closed (L : nat) (r : row) : bool :=
  forallb (fun b => match r !! b with
                    | Some n => bool_decide (n <= L)
                    | None => false
                    end) [k0; k1].

(** Every state of {0,...,L} has a row, and the row is closed. *)
Definition closed (t : table) (L : nat) : bool :=
  forallb (fun st => match t !! st with
                     | Some r => row_closed L r
                     | None => false
                     end) (List.seq 0 (S L)).

(** The automaton of index [i]: a closed table, a state in range and a
    counter. *)
Definition slot_ok (d : StreamMultiDetector) (i : nat) : bool :=
  match tables d !! i, plens d !! i, states d !! i, counts d !! i with
  | Some t, Some L, Some st, Some _ => closed t L && bool_decide (st <= L)
  | _, _, _, _ => false
  end.

(** What the constructor establishes and [step] maintains. *)
Definition well_formed (d : StreamMultiDetector) : bool :=
  forallb (slot_ok d) (List.seq 0 (length (patterns d))).

(** The fields [step] never assigns, and the lengths of the two it does. *)
Definition same_config (d d' : StreamMultiDetector) : Prop :=
  patterns d' = patterns d /\ allow_overlap d' = allow_overlap d
  /\ tables d' = tables d /\ plens d' = plens d
  /\ length (states d') = length (states d)
  /\ length (counts d') = length (counts d).

(** What [step] reads for the automaton of index [i]. *)
Definition ready (bit : str) (d : StreamMultiDetector) (i : nat)
    (t : table) (st : nat) (r : row) (n L c : nat) : Prop :=
  tables d !! i = Some t /\ states d !! i = Some st /\ t !! st = Some r
  /\ r !! bit = Some n /\ plens d !! i = Some L /\ counts d !! i = Some c.

(** The automaton of index [i] has moved from [d] to [d'] on [bit]: its state
    is the table entry, and its counter went up by one exactly when that entry
    is the accept state. *)
Definition advanced (bit : str) (d d' : StreamMultiDetector) (i : nat) : Prop :=
  exists t st r n L c,
    ready bit d i t st r n L c
    /\ states d' !! i = Some n
    /\ counts d' !! i = Some (if decide (n = L) then c + 1 else c).

(** An example: the detector of the pattern ["101"] under the overlapping
    policy, as it stands after the bits ["1"] and ["0"]. *)
Definition example_detector : StreamMultiDetector :=
  {| patterns := [py "101"];
     allow_overlap := true;
     tables := [fill (chars (py "101")) 3];
     plens := [3];
     states := [2];
     counts := [0] |}.

(** ** Matching vocabulary *)

(** The number of positions [k] of the stream [w], counted from 1, at which an
    occurrence of [pat] ends: [pat] is a suffix of the first [k] symbols. *)
Definition occurrences (pat w : list str) : nat :=
  length (filter (fun k => pat `suffix_of` take k w) (List.seq 1 (length w))).

(** Occurrences that share no symbol, found from left to right: [seen] holds
    the symbols read since the last occurrence counted; when [pat] ends
    [seen], the occurrence is counted and the search starts anew. *)
Fixpoint disjoint_occurrences (pat seen rest : list str) : nat :=
  match rest with
  | [] => 0
  | b :: rest' =>
      if decide (pat `suffix_of` seen ++ [b])
      then S (disjoint_occurrences pat [] rest')
      else disjoint_occurrences pat (seen ++ [b]) rest'
  end.

(** One automaton taken alone, with the transition function [delta] and the
    accept state [L]: its state and its counter after one bit, and after a
    sequence of bits. *)
Definition auto_step (delta : nat -> str -> nat) (L : nat)
    (sc : nat * nat) (b : str) : nat * nat :=
  let n := delta sc.1 b in
  (n, if decide (n = L) then sc.2 + 1 else sc.2).

Definition auto_run (delta : nat -> str -> nat) (L : nat)
    (sc : nat * nat) (bits : list str) : nat * nat :=
  foldl (auto_step delta L) sc bits.

(** The table [t] holds the values of [delta] on the states {0,...,L}. *)
Definition table_agrees (t : table) (delta : nat -> str -> nat) (L : nat)
  : Prop :=
  forall s b, s <= L -> is_bit b ->
    exists r, t !! s = Some r /\ r !! b = Some (delta s b).

(** ** The console programs *)

(** The console: the lines [input] has still to read, and the texts written
    so far, in the order they were written. *)
Record console : Type := {
  stdin : list str;
  stdout : list str
}.

(** How a console program ends other than by returning: [input] finds the
    input exhausted, [sys.exit] is called, or an exception of the detector is
    not caught. *)
Inductive io_exn : Type :=
  | EOFError
  | SystemExit (code : nat)
  | Uncaught (e : exn).

Inductive io_res (A : Type) : Type :=
  | Return (a : A)
  | Abort (e : io_exn).
Arguments Return {A} a.
Arguments Abort {A} e.

(** [print(s)]: the text is written, followed by a newline. *)
Definition print (s : str) (out : list str) : list str := out ++ [s ++ [10%N]].

(** [str(n)] for an integer [n >= 0]: its decimal digits. *)
Definition str_of_nat (n : nat) : str := py (pretty n).

(** [sep.join(parts)]. *)
Fixpoint join (sep : str) (parts : list str) : str :=
  match parts with
  | [] => []
  | [x] => x
  | x :: rest => x ++ sep ++ join sep rest
  end.

(** [c.lower()] on the ASCII capitals; the other code points are left as
    they are. *)
Definition lower_char (c : char) : char :=
  if ((65 <=? c) && (c <=? 90))%N then (c + 32)%N else c.

(** [s.lower() == w], for a word [w] made of the letters e, h, o, r, s, t
    and w, as ["show"] and ["reset"] are.  In [str.lower] each of these
    letters is the lower case of itself and of its ASCII capital and of no
    other code point, and the lower case of a code point is a single code
    point but for U+0130, whose two have none of these letters: the test
    holds exactly when lowering the ASCII capitals of [s] gives [w]. *)
Definition lower_is (s w : str) : bool := bool_decide (lower_char <$> s = w).

(** The loop of [prompt_patterns], with the statements that follow it, on the
    lines still to be read. *)
Fixpoint prompt_patterns_loop (lines : list str) (out : list str)
    (pats : list str) : io_res (list str) * console :=
  match lines with
  | [] => (Abort EOFError, {| stdin := []; stdout := out ++ [py "> "] |})
  | l :: lines' =>
      let out := out ++ [py "> "] in
      let line := strip l in
      if decide (line = []) then
        if decide (pats = []) then
          (Abort (SystemExit 0),
           {| stdin := lines';
              stdout := print (py "No patterns provided; exiting.") out |})
        else (Return pats, {| stdin := lines'; stdout := out |})
      else if rejected line then
        prompt_patterns_loop lines'
          (print (py "  (must be non-empty and only 0/1)") out) pats
      else prompt_patterns_loop lines' out (pats ++ [line])
  end.

Definition prompt_patterns (c : console) : io_res (list str) * console :=
  prompt_patterns_loop (stdin c)
    (print (py "Enter binary sequences to detect (one per line). Empty line to finish.")
       (stdout c))
    [].

(** The loop of [prompt_overlap]. *)
Fixpoint prompt_overlap_loop (lines : list str) (out : list str)
  : io_res bool * console :=
  match lines with
  | [] =>
      (Abort EOFError, {| stdin := []; stdout := out ++ [py "Enter 1 or 2: "] |})
  | l :: lines' =>
      let out := out ++ [py "Enter 1 or 2: "] in
      let choice := strip l in
      if decide (choice = py "1") then
        (Return true, {| stdin := lines'; stdout := out |})
      else if decide (choice = py "2") then
        (Return false, {| stdin := lines'; stdout := out |})
      else
        prompt_overlap_loop lines'
          (print (py "Invalid choice. Please enter 1 or 2.") out)
  end.

Definition prompt_overlap (c : console) : io_res bool * console :=
  prompt_overlap_loop (stdin c)
    (print (py "  2) Non-overlapping")
       (print (py "  1) Overlapping")
          (print ([10%N] ++ py "Matching mode:") (stdout c)))).

Definition pretty_counts (patterns : list str) (counts : list nat) : str :=
  join (py " | ")
    (zip_with (fun p c => p ++ py ":" ++ str_of_nat c) patterns counts).

(** The loop [for ch in s] of [main] (lines 130-133): a step, then the
    counters are printed. *)
Fixpoint feed_print (patterns : list str) (bits : list str)
    (det : StreamMultiDetector) (out : list str)
  : res unit * StreamMultiDetector * list str :=
  match bits with
  | [] => (Ok tt, det, out)
  | ch :: bits' =>
      match step ch det with
      | (Ok _, det') =>
          feed_print patterns bits' det'
            (print (pretty_counts patterns (snapshot det').1) out)
      | (Raise e, det') => (Raise e, det', out)
      end
  end.

(** How one turn of the loop of [main] ends. *)
Inductive turn : Type :=
  | Break
  | Continue (det : StreamMultiDetector)
  | Crash (e : exn).

(** One turn of the loop of [main], after [input] has returned the line [l]
    (lines 115-133). *)
Definition main_turn (patterns : list str) (allow_overlap : bool) (l : str)
    (det : StreamMultiDetector) (out : list str) : turn * list str :=
  let s := strip l in
  if decide (s = []) then (Break, out)
  else if lower_is s (py "show") then
    (Continue det,
     print (py "counts:" ++ py " " ++ pretty_counts patterns (snapshot det).1) out)
  else if lower_is s (py "reset") then
    match __init__ patterns allow_overlap with
    | Ok det' => (Continue det', print (py "State and counts reset.") out)
    | Raise e => (Crash e, out)
    end
  else if existsb (fun ch => bool_decide ([ch] ∉ [k0; k1])) s then
    (Continue det,
     print (py "Only '0'/'1', 'show', 'reset', or empty to quit.") out)
  else
    match feed_print patterns (chars s) det out with
    | (Ok _, det', out') => (Continue det', out')
    | (Raise e, _, out') => (Crash e, out')
    end.

(** The loop of [main], with the [print("Bye.")] that follows it. *)
Fixpoint main_loop (patterns : list str) (allow_overlap : bool)
    (lines : list str) (det : StreamMultiDetector) (out : list str)
  : io_res unit * console :=
  match lines with
  | [] => (Abort EOFError, {| stdin := []; stdout := out ++ [py "bit(s)> "] |})
  | l :: lines' =>
      match main_turn patterns allow_overlap l det (out ++ [py "bit(s)> "]) with
      | (Break, out') =>
          (Return tt, {| stdin := lines'; stdout := print (py "Bye.") out' |})
      | (Continue det', out') =>
          main_loop patterns allow_overlap lines' det' out'
      | (Crash e, out') =>
          (Abort (Uncaught e), {| stdin := lines'; stdout := out' |})
      end
  end.

(** The lines [  [i] p (len=n)] that [main] prints for the patterns. *)
Definition print_patterns (patterns : list str) (out : list str) : list str :=
  foldl (fun out ip =>
           print (py "  [" ++ str_of_nat ip.1 ++ py "] " ++ ip.2
                  ++ py " (len=" ++ str_of_nat (length ip.2) ++ py ")") out)
        out (imap (fun i p => (i, p)) patterns).

Definition main (c : console) : io_res unit * console :=
  let out := print (py "=== Multi Sequence Detector ===") (stdout c) in
  match prompt_patterns {| stdin := stdin c; stdout := out |} with
  | (Abort e, c1) => (Abort e, c1)
  | (Return patterns, c1) =>
      match prompt_overlap c1 with
      | (Abort e, c2) => (Abort e, c2)
      | (Return allow_overlap, c2) =>
          let out := print ([10%N] ++ py "Loaded patterns:") (stdout c2) in
          let out := print_patterns patterns out in
          let out :=
            print (py "Mode: "
                   ++ (if allow_overlap then py "overlap" else py "non-overlap")
                   ++ [10%N]) out in
          match __init__ patterns allow_overlap with
          | Raise e => (Abort (Uncaught e), {| stdin := stdin c2; stdout := out |})
          | Ok det =>
              let out := print (py "Stream bits live. Enter:") out in
              let out := print (py "  - single bit 0/1") out in
              let out := print (py "  - multiple bits like 010110") out in
              let out := print (py "  - 'show' to print counts") out in
              let out :=
                print (py "  - 'reset' to zero the stream state and counts") out in
              let out := print (py "  - empty line to quit" ++ [10%N]) out in
              main_loop patterns allow_overlap (stdin c2) det out
          end
      end
  end.

(** What [prompt_patterns] lets through: a stripped line it does not skip. *)
Definition accepted (p : str) : Prop := rejected p = false /\ strip p = p.

(** A decimal digit. *)
Definition is_digit (c : char) : bool := ((48 <=? c) && (c <=? 57))%N.

(** A console program ends cleanly: it returns, or [input] finds the input
    exhausted, or [sys.exit(0)] is called. *)
Definition clean {A} (r : io_res A) : Prop :=
  match r with
  | Return _ => True
  | Abort EOFError => True
  | Abort (SystemExit code) => code = 0
  | Abort (Uncaught _) => False
  end.

(** The number of occurrences of [pat] that end in [rest], when [rest] follows
    the symbols [seen]. *)
Fixpoint occurrences_from (pat seen rest : list str) : nat :=
  match rest with
  | [] => 0
  | b :: rest' =>
      (if decide (pat `suffix_of` seen ++ [b]) then 1 else 0)
      + occurrences_from pat (seen ++ [b]) rest'
  end.

(** ** Properties of [strip] *)

Section strip_facts.

Lemma lstrip_spec (s : str) :
  exists w, s = w ++ lstrip s /\ Forall (fun c => isspace c = true) w
            /\ no_lead (lstrip s).
Proof.
  induction s as [|c s IH]; simpl.
  - exists []. by repeat split.
  - destruct (isspace c) eqn:Hc.
    + destruct IH as (w & Hs & Hw & Hl).
      exists (c :: w). split; [by rw /= -Hs|]. split; [by constructor|done].
    + exists []. by repeat split.
Qed.

Lemma lstrip_id (s : str) : no_lead s -> lstrip s = s.
Proof. destruct s as [|c s]; simpl; [done|]. by intros ->. Qed.

Lemma rstrip_spec (s : str) :
  exists w, s = rstrip s ++ w /\ Forall (fun c => isspace c = true) w
            /\ no_trail (rstrip s).
Proof.
  destruct (lstrip_spec (reverse s)) as (w & Hs & Hw & Hl).
  exists (reverse w). split; [|split].
  - rw /rstrip -reverse_app -Hs. by rw reverse_involutive.
  - by apply Forall_reverse.
  - by rw /no_trail /rstrip reverse_involutive.
Qed.

Lemma rstrip_id (s : str) : no_trail s -> rstrip s = s.
Proof.
  intros H. rw /rstrip lstrip_id; [|done]. apply reverse_involutive.
Qed.

Lemma rstrip_no_lead (s : str) : no_lead s -> no_lead (rstrip s).
Proof.
  intros H. destruct (rstrip_spec s) as (w & Hs & _ & _).
  destruct (rstrip s) as [|c r]; [done|].
  rw Hs in H. exact H.
Qed.

Lemma strip_no_lead (s : str) : no_lead (strip s).
Proof.
  apply rstrip_no_lead. by destruct (lstrip_spec s) as (w & _ & _ & H).
Qed.

Lemma strip_no_trail (s : str) : no_trail (strip s).
Proof. by destruct (rstrip_spec (lstrip s)) as (w & _ & _ & H). Qed.

Lemma strip_id (s : str) : no_lead s -> no_trail s -> strip s = s.
Proof. intros H1 H2. by rw /strip lstrip_id // rstrip_id. Qed.

Lemma strip_idemp (s : str) : strip (strip s) = strip s.
Proof. apply strip_id; [apply strip_no_lead | apply strip_no_trail]. Qed.

Lemma binary_spec (p : str) :
  binary p = true <-> Forall (fun c => c = 48%N \/ c = 49%N) p.
Proof.
  induction p as [|c p IH]; [done|].
  by rw /= andb_true_iff orb_true_iff !N.eqb_eq Forall_cons IH.
Qed.

Lemma binary_no_lead (p : str) :
  Forall (fun c => c = 48%N \/ c = 49%N) p -> no_lead p.
Proof.
  destruct p as [|c p]; [done|]. intros H.
  apply Forall_cons in H as [[-> | ->] _]; reflexivity.
Qed.

Lemma strip_binary (p : str) : binary p = true -> strip p = p.
Proof.
  intros H%binary_spec. apply strip_id; [by apply binary_no_lead|].
  apply binary_no_lead. by apply Forall_reverse.
Qed.

Lemma lstrip_spaces (s : str) :
  Forall (fun c => isspace c = true) s -> lstrip s = [].
Proof. induction 1 as [|c s Hc _ IH]; simpl; [done|]. by rw Hc. Qed.

Lemma strip_spaces (s : str) :
  Forall (fun c => isspace c = true) s -> strip s = [].
Proof. intros H. by rw /strip lstrip_spaces. Qed.

End strip_facts.

(** ** The search loop of [nxt] *)

Section nxt_facts.
Context (seq : list str).

Lemma range_down_S (n : nat) : range_down (S n) = S n :: range_down n.
Proof. by rw /range_down (seq_S (S n)) reverse_snoc. Qed.

Lemma nxt_loop_spec (temp : list str) (limit : nat) :
  let r := nxt_loop seq temp (range_down limit) in
  r <= limit /\ matches seq temp r
  /\ forall k, k <= limit -> matches seq temp k -> k <= r.
Proof.
  induction limit as [|n IH]; cbn zeta in *.
  - change (range_down 0) with [0]. cbn [nxt_loop].
    case_decide; (split; [lia|]); (split; [done|]); intros; lia.
  - rw range_down_S. cbn [nxt_loop].
    case_decide as Hm.
    + split; [lia|]. split; [exact Hm|]. intros; lia.
    + destruct IH as (Hle & Hr & Hmax).
      split; [lia|]. split; [exact Hr|].
      intros k Hk Hmk. destruct (decide (k = S n)) as [->|Hne].
      * by destruct Hm.
      * apply Hmax; [lia|done].
Qed.

Lemma matches_suffix_prefix (temp : list str) (size : nat) :
  size <= length temp -> size <= length seq ->
  matches seq temp size <-> suffix_prefix temp seq size.
Proof.
  intros Ht Hs. rw /matches /suffix_prefix. split.
  - intros Hm. exists (take size seq).
    split; [rw length_take; lia|]. split; [|apply prefix_take].
    rw -Hm. case_decide; [apply suffix_drop | apply suffix_nil].
  - intros (u & Hu & [k ->] & [k' ->]).
    rw take_app_length' //.
    case_decide as H0.
    + rw drop_app_length' //. rw length_app. lia.
    + destruct u; [done|]. simpl in Hu. lia.
Qed.

Lemma suffix_prefix_bound (temp : list str) (k : nat) :
  suffix_prefix temp seq k -> k <= length temp `min` length seq.
Proof.
  intros (u & <- & Hs & Hp).
  apply suffix_length in Hs. apply prefix_length in Hp. lia.
Qed.

Lemma nxt_le (plen st : nat) (b : str) : nxt seq plen st b <= plen.
Proof.
  rw /nxt.
  destruct (nxt_loop_spec (take st seq ++ [b])
              (length (take st seq ++ [b]) `min` plen)) as (H & _).
  cbn zeta in *. lia.
Qed.

Lemma nxt_spec (st : nat) (b : str) :
  longest_suffix_prefix (take st seq ++ [b]) seq (nxt seq (length seq) st b).
Proof.
  rw /nxt. set (temp := take st seq ++ [b]).
  destruct (nxt_loop_spec temp (length temp `min` length seq))
    as (Hle & Hm & Hmax).
  cbn zeta in *. split.
  - apply matches_suffix_prefix; [lia..|done].
  - intros k Hk. pose proof (suffix_prefix_bound _ _ Hk) as Hb.
    apply Hmax; [done|]. apply matches_suffix_prefix; [lia..|done].
Qed.

End nxt_facts.

(** ** The table [build_transitions] returns *)

Lemma k0_k1 : k0 <> k1.
Proof. discriminate. Qed.

Lemma elem_of_bits (b : str) : b ∈ [k0; k1] <-> is_bit b.
Proof. rw /is_bit !elem_of_cons elem_of_nil. tauto. Qed.

Lemma row_of_k0 (a b : nat) : row_of a b !! k0 = Some a.
Proof.
  rw /row_of lookup_insert_ne; [by rw lookup_insert_eq|].
  apply not_eq_sym, k0_k1.
Qed.

Lemma row_of_k1 (a b : nat) : row_of a b !! k1 = Some b.
Proof. by rw /row_of lookup_insert_eq. Qed.

Lemma row_of_overwrite (a b a' b' : nat) :
  <[k1:=b']> (<[k0:=a']> (row_of a b)) = row_of a' b'.
Proof.
  apply map_eq. intros k. rw /row_of !lookup_insert.
  repeat case_decide; done.
Qed.

Lemma getitem_Some `{Countable K} {V} (d : gmap K V) (k : K) (v : V) :
  d !! k = Some v -> getitem d k = Ok v.
Proof. rw /getitem. by intros ->. Qed.

Lemma copy_entry_spec (t : gmap nat (gmap (list N) nat)) (dst src : nat)
    (key : str) (r d : gmap (list N) nat) (v : nat) :
  t !! src = Some r -> r !! key = Some v -> t !! dst = Some d ->
  copy_entry t dst src key = Ok (<[dst := <[key:=v]> d]> t).
Proof.
  intros Hr Hv Hd.
  by rw /copy_entry (getitem_Some _ _ _ Hr) /= (getitem_Some _ _ _ Hv) /=
        (getitem_Some _ _ _ Hd).
Qed.

Lemma foldl_insert_lookup (f : nat -> gmap (list N) nat) (l : list nat)
    (m : gmap nat (gmap (list N) nat)) (k : nat) :
  foldl (fun t st => <[st := f st]> t) m l !! k
  = if decide (k ∈ l) then Some (f k) else m !! k.
Proof.
  revert m. induction l as [|x l IH]; intros m; cbn [foldl].
  - case_decide as Hk; [by apply elem_of_nil in Hk|done].
  - rw IH lookup_insert.
    destruct (decide (k ∈ l)) as [Hl|Hl], (decide (x = k)) as [->|Hx];
      case_decide as Hk; try done.
    + destruct Hk. by right.
    + destruct Hk. by right.
    + destruct Hk. by left.
    + apply elem_of_cons in Hk as [->|Hk]; done.
Qed.

Section table_facts.
Context (seq : list str) (plen : nat).

Lemma fill_lookup (st : nat) :
  fill seq plen !! st
  = if decide (st <= plen)
    then Some (row_of (nxt seq plen st k0) (nxt seq plen st k1))
    else None.
Proof.
  rw /fill (foldl_insert_lookup
              (fun st => row_of (nxt seq plen st k0) (nxt seq plen st k1))).
  destruct (decide (st <= plen)) as [Hs|Hs]; case_decide as Hk; try done.
  - destruct Hk. apply elem_of_seq. lia.
  - apply elem_of_seq in Hk. lia.
Qed.

Lemma entry_le (ov : bool) (st : nat) (b : str) : entry seq plen ov st b <= plen.
Proof. rw /entry. case_match; apply nxt_le. Qed.

Lemma patch_spec :
  1 <= plen ->
  exists t,
    (let? transitions := copy_entry (fill seq plen) plen 0 k0 in
     copy_entry transitions plen 0 k1)%res = Ok t
    /\ forall st, t !! st
         = if decide (st <= plen)
           then Some (row_of (entry seq plen false st k0) (entry seq plen false st k1))
           else None.
Proof.
  intros Hp.
  pose proof (fill_lookup 0) as H0. case_decide; [|lia].
  pose proof (fill_lookup plen) as HL. case_decide; [|lia].
  eexists. split.
  - rw (copy_entry_spec _ _ _ _ _ _ _ H0 (row_of_k0 _ _) HL) /=.
    apply copy_entry_spec with (r := row_of (nxt seq plen 0 k0) (nxt seq plen 0 k1)).
    + rw lookup_insert_ne; [exact H0|lia].
    + apply row_of_k1.
    + apply lookup_insert_eq.
  - intros st. rw insert_insert_eq row_of_overwrite lookup_insert /entry.
    destruct (decide (plen = st)) as [<-|Hne].
    + case_decide; [|lia]. by rw !bool_decide_true.
    + rw fill_lookup. rw (bool_decide_false (st = plen)); [|done].
      by rw andb_false_r.
Qed.

End table_facts.

Lemma build_transitions_spec (p : str) (ov : bool) :
  let seq := chars (strip p) in
  let plen := length (strip p) in
  exists t,
    build_transitions p ov = Ok (t, plen)
    /\ forall st, t !! st
         = if decide (st <= plen)
           then Some (row_of (entry seq plen ov st k0) (entry seq plen ov st k1))
           else None.
Proof.
  intros seq plen. rw /build_transitions.
  change ((fun ch => [ch]) <$> strip p) with seq.
  replace (length seq) with plen by by rw /seq /chars length_fmap.
  destruct (negb ov && bool_decide (1 <= plen)) eqn:Hc.
  - apply andb_true_iff in Hc as [Hov Hp%bool_decide_eq_true].
    destruct ov; [done|].
    destruct (patch_spec seq plen Hp) as (t & Ht & Hl).
    exists t. split; [|done].
    rw /res_bind in Ht |- *.
    destruct (copy_entry (fill seq plen) plen 0 k0) as [t1|]; [|done].
    by rw Ht.
  - eexists. split; [done|]. intros st. rw fill_lookup /entry Hc. done.
Qed.

(** ** Well-formedness, in logical form *)

Lemma row_closed_spec (L : nat) (r : gmap (list N) nat) :
  row_closed L r = true
  <-> forall b, is_bit b -> exists n, r !! b = Some n /\ n <= L.
Proof.
  rw /row_closed /= andb_true_r andb_true_iff. split.
  - intros [H0 H1] b [-> | ->].
    + destruct (r !! k0) as [n|]; [|done]. exists n.
      by apply bool_decide_eq_true in H0.
    + destruct (r !! k1) as [n|]; [|done]. exists n.
      by apply bool_decide_eq_true in H1.
  - intros H.
    destruct (H k0) as (n0 & -> & Hn0); [by left|].
    destruct (H k1) as (n1 & -> & Hn1); [by right|].
    by rw !bool_decide_eq_true.
Qed.

Lemma closed_spec (t : gmap nat (gmap (list N) nat)) (L : nat) :
  closed t L = true
  <-> forall st b, st <= L -> is_bit b ->
        exists r n, t !! st = Some r /\ r !! b = Some n /\ n <= L.
Proof.
  rw /closed forallb_forall. split.
  - intros H st b Hst Hb.
    specialize (H st). rw in_seq in H.
    destruct (t !! st) as [r|]; [|assert (false = true) by (apply H; lia); done].
    assert (Hr : row_closed L r = true) by (apply H; lia).
    destruct (proj1 (row_closed_spec L r) Hr b Hb) as (n & Hn & Hle).
    by exists r, n.
  - intros H st Hst%in_seq.
    destruct (H st k0) as (r & _ & Hr & _); [lia|by left|]. rw Hr.
    apply row_closed_spec. intros b Hb.
    destruct (H st b) as (r' & n & Hr' & Hn & Hle); [lia|done|].
    exists n. by simplify_eq.
Qed.

Lemma slot_ok_spec (d : StreamMultiDetector) (i : nat) :
  slot_ok d i = true
  <-> exists t L st c,
        tables d !! i = Some t /\ plens d !! i = Some L
        /\ states d !! i = Some st /\ counts d !! i = Some c
        /\ closed t L = true /\ st <= L.
Proof.
  rw /slot_ok. split.
  - destruct (tables d !! i) as [t|], (plens d !! i) as [L|],
      (states d !! i) as [st|], (counts d !! i) as [c|]; try done.
    intros [Hc Hs%bool_decide_eq_true]%andb_true_iff.
    by exists t, L, st, c.
  - intros (t & L & st & c & -> & -> & -> & -> & Hc & Hs).
    by rw Hc bool_decide_true.
Qed.

Lemma well_formed_spec (d : StreamMultiDetector) :
  well_formed d = true
  <-> forall i, i < length (patterns d) -> slot_ok d i = true.
Proof.
  rw /well_formed forallb_forall. split.
  - intros H i Hi. apply H, in_seq. lia.
  - intros H i Hi%in_seq. apply H. lia.
Qed.

(** ** The constructor *)

Lemma build_transitions_closed (p : str) (ov : bool)
    (t : gmap nat (gmap (list N) nat)) (L : nat) :
  build_transitions p ov = Ok (t, L) ->
  L = length (strip p) /\ closed t L = true.
Proof.
  intros Hb.
  destruct (build_transitions_spec p ov) as (t' & Hb' & Hl).
  rw Hb in Hb'. injection Hb' as <- ->. split; [done|].
  apply closed_spec. intros st b Hst Hbit.
  rw Hl. case_decide; [|lia].
  destruct Hbit as [-> | ->]; eexists _, _; (split; [done|]).
  - split; [apply row_of_k0 | apply entry_le].
  - split; [apply row_of_k1 | apply entry_le].
Qed.

Lemma init_loop_spec (ps : list str) (ov : bool)
    (ts : list (gmap nat (gmap (list N) nat))) (ls : list nat) :
  exists ts',
    init_loop ps ov ts ls = Ok (ts ++ ts', ls ++ (length ∘ strip <$> ps))
    /\ Forall2 (fun p t => build_transitions p ov = Ok (t, length (strip p)))
               ps ts'.
Proof.
  revert ts ls. induction ps as [|p ps IH]; intros ts ls.
  - exists []. by rw /= !app_nil_r.
  - destruct (build_transitions_spec p ov) as (t & Hb & _).
    destruct (IH (ts ++ [t]) (ls ++ [length (strip p)])) as (ts' & Hi & Hf).
    exists (t :: ts'). split; [|by constructor].
    by rw /= Hb /= Hi -!assoc_L.
Qed.

Lemma init_spec (ps : list str) (ov : bool) :
  exists d,
    __init__ ps ov = Ok d
    /\ patterns d = ps /\ allow_overlap d = ov
    /\ Forall2 (fun p t => build_transitions p ov = Ok (t, length (strip p)))
               ps (tables d)
    /\ plens d = (length ∘ strip <$> ps)
    /\ states d = replicate (length ps) 0
    /\ counts d = replicate (length ps) 0.
Proof.
  destruct (init_loop_spec ps ov [] []) as (ts & Hi & Hf).
  eexists. rw /__init__ Hi /=. by repeat split.
Qed.

Lemma init_well_formed (ps : list str) (ov : bool) (d : StreamMultiDetector) :
  __init__ ps ov = Ok d -> well_formed d = true.
Proof.
  intros Hn.
  destruct (init_spec ps ov) as (d' & Hn' & Hp & _ & Hf & Hl & Hs & Hc).
  rw Hn in Hn'. injection Hn' as <-.
  apply well_formed_spec. intros i Hi. rw Hp in Hi.
  destruct (lookup_lt_is_Some_2 ps i Hi) as [p Hpi].
  destruct (Forall2_lookup_l _ _ _ _ _ Hf Hpi) as (t & Hti & Hb).
  apply build_transitions_closed in Hb as [_ Hcl].
  apply slot_ok_spec. exists t, (length (strip p)), 0, 0.
  rw Hti Hl Hs Hc list_lookup_fmap Hpi !lookup_replicate_2 //.
  repeat split; [done|lia].
Qed.

(** ** One step *)

Lemma step_body_spec (bit : str) (d : StreamMultiDetector) (i : nat)
    (t : gmap nat (gmap (list N) nat)) (st : nat) (r : gmap (list N) nat)
    (n L c : nat) :
  ready bit d i t st r n L c ->
  step_body bit i d
  = (Ok tt,
     if decide (n = L)
     then with_counts (with_states d (<[i:=n]> (states d)))
                      (<[i:=c + 1]> (counts d))
     else with_states d (<[i:=n]> (states d))).
Proof.
  intros (Ht & Hst & Hr & Hn & HL & Hc).
  rw /step_body /bind /lift /list_getitem /getitem /set_state /set_count
     /list_setitem /ret.
  rw Ht Hst Hr Hn /=.
  destruct (decide (i < length (states d))) as [_|Hi];
    [|destruct Hi; by eapply lookup_lt_Some].
  rw /= HL. destruct (decide (n = L)) as [_|_]; [|done].
  rw /= Hc.
  destruct (decide (i < length (counts d))) as [_|Hi];
    [done|destruct Hi; by eapply lookup_lt_Some].
Qed.

Lemma step_loop_spec (bit : str) (m j : nat) (d : StreamMultiDetector) :
  (forall i, j <= i < j + m -> exists t st r n L c, ready bit d i t st r n L c) ->
  exists d',
    for_each (List.seq j m) (step_body bit) d = (Ok tt, d')
    /\ same_config d d'
    /\ (forall i, ~ (j <= i < j + m) ->
          states d' !! i = states d !! i /\ counts d' !! i = counts d !! i)
    /\ (forall i, j <= i < j + m -> advanced bit d d' i).
Proof.
  revert j d. induction m as [|m IH]; intros j d Hready.
  - exists d. split; [done|]. split; [by rw /same_config|].
    split; [done|]. intros i Hi. lia.
  - destruct (Hready j) as (t & st & r & n & L & c & Hj); [lia|].
    pose proof Hj as (Ht & Hst & Hr & Hn & HL & Hc).
    pose proof (step_body_spec _ _ _ _ _ _ _ _ _ Hj) as Hbody.
    set (d1 := if decide (n = L)
               then with_counts (with_states d (<[j:=n]> (states d)))
                                (<[j:=c + 1]> (counts d))
               else with_states d (<[j:=n]> (states d))) in Hbody.
    assert (Hcfg : same_config d d1).
    { rw /d1 /same_config. case_decide; rw /= ?length_insert //. }
    assert (Hsj : states d1 !! j = Some n).
    { rw /d1. case_decide; rw /= list_lookup_insert_eq //;
        by eapply lookup_lt_Some. }
    assert (Hcj : counts d1 !! j = Some (if decide (n = L) then c + 1 else c)).
    { rw /d1. case_decide; rw /= ?list_lookup_insert_eq //.
      by eapply lookup_lt_Some. }
    assert (Hother : forall i, i <> j ->
              states d1 !! i = states d !! i /\ counts d1 !! i = counts d !! i).
    { intros i Hi. rw /d1. case_decide; rw /= ?list_lookup_insert_ne //. }
    destruct Hcfg as (Hp1 & Ho1 & Ht1 & Hl1 & Hls1 & Hlc1).
    destruct (IH (S j) d1) as (d' & Hloop & Hcfg' & Hframe & Hadv).
    { intros i Hi. destruct (Hready i) as (t' & st' & r' & n' & L' & c' & Hi');
        [lia|].
      destruct Hi' as (? & ? & ? & ? & ? & ?).
      destruct (Hother i) as [Hs Hcc]; [lia|].
      exists t', st', r', n', L', c'. rw /ready Ht1 Hl1 Hs Hcc. done. }
    destruct Hcfg' as (Hp' & Ho' & Ht' & Hl' & Hls' & Hlc').
    exists d'. split; [|split; [|split]].
    + by rw /= /bind Hbody.
    + rw /same_config. repeat split; congruence.
    + intros i Hi. destruct (Hframe i) as [-> ->]; [lia|].
      apply Hother. lia.
    + intros i Hi. destruct (decide (i = j)) as [->|Hne].
      * exists t, st, r, n, L, c. split; [done|].
        destruct (Hframe j) as [-> ->]; [lia|]. done.
      * destruct (Hadv i) as (t' & st' & r' & n' & L' & c' & Hr' & Hs' & Hc');
          [lia|].
        destruct (Hother i) as [Hs Hcc]; [lia|].
        exists t', st', r', n', L', c'. split; [|done].
        rw /ready Ht1 Hl1 Hs Hcc in Hr'. done.
Qed.

Lemma step_valid (bit : str) (d : StreamMultiDetector) :
  is_bit bit ->
  step bit d = for_each (List.seq 0 (length (patterns d))) (step_body bit) d.
Proof.
  intros Hb. rw /step bool_decide_false //.
  intros Hn. by apply Hn, elem_of_bits.
Qed.

Lemma step_invalid (bit : str) (d : StreamMultiDetector) :
  ~ is_bit bit ->
  step bit d = (Raise (ValueError "Bit must be '0' or '1'"), d).
Proof.
  intros Hb. rw /step bool_decide_true //.
  intros Hn. by apply Hb, elem_of_bits.
Qed.

Lemma well_formed_ready (bit : str) (d : StreamMultiDetector) (i : nat) :
  well_formed d = true -> is_bit bit -> i < length (patterns d) ->
  exists t st r n L c, ready bit d i t st r n L c /\ n <= L.
Proof.
  intros Hwf Hb Hi.
  apply (proj1 (well_formed_spec d) Hwf) in Hi.
  apply slot_ok_spec in Hi as (t & L & st & c & Ht & HL & Hst & Hc & Hcl & Hle).
  destruct (proj1 (closed_spec t L) Hcl st bit Hle Hb) as (r & n & Hr & Hn & Hnl).
  by exists t, st, r, n, L, c.
Qed.

Lemma step_spec (bit : str) (d : StreamMultiDetector) :
  well_formed d = true -> is_bit bit ->
  exists d',
    step bit d = (Ok tt, d')
    /\ same_config d d'
    /\ (forall i, i < length (patterns d) -> advanced bit d d' i)
    /\ well_formed d' = true.
Proof.
  intros Hwf Hb.
  destruct (step_loop_spec bit (length (patterns d)) 0 d)
    as (d' & Hloop & Hcfg & _ & Hadv).
  { intros i Hi.
    destruct (well_formed_ready bit d i Hwf Hb) as (t & st & r & n & L & c & H & _);
      [lia|]. by exists t, st, r, n, L, c. }
  exists d'. split; [by rw step_valid|]. split; [done|].
  split; [intros i Hi; apply Hadv; lia|].
  destruct Hcfg as (Hp & _ & Ht & Hl & _ & _).
  apply well_formed_spec. intros i Hi. rw Hp in Hi.
  destruct (Hadv i) as (t & st & r & n & L & c & Hr & Hs' & Hc'); [lia|].
  destruct Hr as (Hti & Hsi & Hri & Hni & HLi & Hci).
  apply (proj1 (well_formed_spec d) Hwf) in Hi.
  apply slot_ok_spec in Hi as (t3 & L3 & st3 & c3 & Ht3 & HL3 & Hst3 & _ & Hcl & Hle).
  assert (t3 = t) as -> by congruence.
  assert (L3 = L) as -> by congruence.
  assert (st3 = st) as -> by congruence.
  destruct (proj1 (closed_spec t L) Hcl st bit Hle Hb) as (r' & n' & Hr' & Hn' & Hnl).
  assert (r' = r) as -> by congruence.
  assert (n' = n) as -> by congruence.
  apply slot_ok_spec. eexists t, L, n, _. rw Ht Hl. by repeat split.
Qed.

Lemma same_config_refl (d : StreamMultiDetector) : same_config d d.
Proof. by rw /same_config. Qed.

Lemma same_config_trans (d1 d2 d3 : StreamMultiDetector) :
  same_config d1 d2 -> same_config d2 d3 -> same_config d1 d3.
Proof. rw /same_config. intros (?&?&?&?&?&?) (?&?&?&?&?&?). repeat split; congruence. Qed.

Lemma feed_spec (bits : list str) (d : StreamMultiDetector) :
  well_formed d = true -> Forall is_bit bits ->
  exists d', feed bits d = (Ok tt, d') /\ same_config d d'
             /\ well_formed d' = true.
Proof.
  intros Hwf Hbits. revert d Hwf.
  induction Hbits as [|b bits Hb _ IH]; intros d Hwf.
  - exists d. split; [done|]. split; [apply same_config_refl|done].
  - destruct (step_spec b d Hwf Hb) as (d1 & Hs & Hc1 & _ & Hwf1).
    destruct (IH d1 Hwf1) as (d' & Hf & Hc' & Hwf').
    exists d'. split; [|split; [by eapply same_config_trans|done]].
    by rw /feed /= /bind Hs.
Qed.

(** A detector reached from the constructor by feeding valid bits. *)
Lemma reach_spec (ps : list str) (ov : bool) (bits : list str) :
  Forall is_bit bits ->
  exists d0 d,
    __init__ ps ov = Ok d0 /\ feed bits d0 = (Ok tt, d)
    /\ same_config d0 d /\ well_formed d = true.
Proof.
  intros Hbits.
  destruct (init_spec ps ov) as (d0 & Hn & _).
  destruct (feed_spec bits d0 (init_well_formed _ _ _ Hn) Hbits)
    as (d & Hf & Hc & Hwf).
  by exists d0, d.
Qed.

(** [step] raises nothing but what its own [raise] statement raises: the
    lookups of the loop can only fail with [KeyError] or [IndexError]. *)
Lemma step_body_no_ValueError (bit : str) (i : nat) (d : StreamMultiDetector)
    (msg : string) :
  (step_body bit i d).1 <> Raise (ValueError msg).
Proof.
  rw /step_body /bind /lift /list_getitem /getitem /set_state /set_count
     /list_setitem /ret.
  repeat (case_match; simplify_eq/=; try done).
Qed.

Lemma for_each_no_ValueError (bit : str) (l : list nat)
    (d : StreamMultiDetector) (msg : string) :
  (for_each l (step_body bit) d).1 <> Raise (ValueError msg).
Proof.
  revert d. induction l as [|i l IH]; intros d; [done|].
  rw /= /bind. pose proof (step_body_no_ValueError bit i d msg) as Hb.
  destruct (step_body bit i d) as [[[]|e] d1]; [apply IH|].
  simpl in *. congruence.
Qed.

(** * The builder *)

(** C1. For a pattern [p] over {0,1} of length L, a state [s] of {0,...,L}
    and a symbol [b] of {0,1}, the table built under the overlapping policy
    has at [(s, b)] the length of the longest suffix of [p[0..s] ++ [b]] that
    is a prefix of [p] (which is 0 when only the empty prefix matches). *)
Theorem C1_overlap_entry_longest_suffix_prefix (p : str) (s : nat) (b : str) :
  binary p = true -> s <= length p -> is_bit b ->
  exists t r n,
    build_transitions p true = Ok (t, length p)
    /\ t !! s = Some r /\ r !! b = Some n
    /\ longest_suffix_prefix (take s (chars p) ++ [b]) (chars p) n.
Proof.
  intros Hp Hs Hb.
  destruct (build_transitions_spec p true) as (t & Hbuild & Hl).
  rw (strip_binary p Hp) in Hbuild Hl. specialize (Hl s).
  case_decide; [|lia].
  assert (Hlen : length (chars p) = length p) by by rw /chars length_fmap.
  assert (He : forall k, entry (chars p) (length p) true s k
                         = nxt (chars p) (length (chars p)) s k)
    by by rw /entry Hlen.
  rw !He in Hl.
  exists t, (row_of (nxt (chars p) (length (chars p)) s k0)
                    (nxt (chars p) (length (chars p)) s k1)).
  destruct Hb as [-> | ->]; eexists; (split; [done|]); (split; [done|]).
  - split; [apply row_of_k0 | apply nxt_spec].
  - split; [apply row_of_k1 | apply nxt_spec].
Qed.

Lemma C1_witness :
  exists t r n,
    build_transitions (py "101") true = Ok (t, 3)
    /\ t !! 3 = Some r /\ r !! k0 = Some n
    /\ longest_suffix_prefix (take 3 (chars (py "101")) ++ [k0])
         (chars (py "101")) n.
Proof.
  apply (C1_overlap_entry_longest_suffix_prefix (py "101") 3 k0);
    [reflexivity | vm_compute; lia | left; reflexivity].
Defined.

(** C2, as amended.  Construction never fails: for every pattern string, the
    empty one and those with symbols outside {0,1} included,
    [build_transitions] returns a table with the accept state
    [len(pattern.strip())], and the constructor returns a detector over the
    patterns given, with every state and every counter 0. *)
Theorem C2_construction_never_fails (ps : list str) (p : str) (ov : bool) :
  (exists t, build_transitions p ov = Ok (t, length (strip p)))
  /\ exists d,
       __init__ ps ov = Ok d
       /\ patterns d = ps
       /\ plens d = (length ∘ strip <$> ps)
       /\ length (tables d) = length ps
       /\ snapshot d = (replicate (length ps) 0, replicate (length ps) 0).
Proof.
  split.
  - destruct (build_transitions_spec p ov) as (t & Hb & _). by exists t.
  - destruct (init_spec ps ov) as (d & Hn & Hp & _ & Hf & Hl & Hs & Hc).
    exists d. repeat split; try done.
    + symmetry. by eapply Forall2_length.
    + by rw /snapshot Hs Hc.
Qed.

(** C2, as stated, fails: the empty pattern and the pattern ["102"], both of
    which [prompt_patterns] would skip, are accepted by [build_transitions]
    and by the constructor. *)
Lemma C2_counterexample :
  rejected (py "") = true /\ rejected (py "102") = true
  /\ build_transitions (py "") true = Ok ({[0 := row_of 0 0]}, 0)
  /\ (exists t, build_transitions (py "102") true = Ok (t, 3))
  /\ exists d, __init__ [py ""; py "102"] true = Ok d.
Proof.
  split; [reflexivity|]. split; [reflexivity|].
  split; [by vm_compute|]. split; eexists; by vm_compute.
Qed.

(** C3. Under the non-overlapping policy and for a pattern that is not empty,
    the table differs from the one of the overlapping policy at the accept
    state L only: the row of L holds for both symbols the entries of the row
    of state 0, and every other row is the row of the overlapping table. *)
Theorem C3_non_overlap_differs_at_accept_only (p : str) (b : str) :
  strip p <> [] -> is_bit b ->
  let L := length (strip p) in
  exists tn to,
    build_transitions p false = Ok (tn, L)
    /\ build_transitions p true = Ok (to, L)
    /\ (exists r0 rL n,
          tn !! 0 = Some r0 /\ tn !! L = Some rL
          /\ r0 !! b = Some n /\ rL !! b = Some n)
    /\ (forall s, s <> L -> tn !! s = to !! s)
    /\ (forall s, s < L -> is_Some (to !! s)).
Proof.
  intros Hp Hb L.
  assert (HL : 1 <= L) by (rw /L; destruct (strip p); [done|simpl; lia]).
  destruct (build_transitions_spec p false) as (tn & Hbn & Hn).
  destruct (build_transitions_spec p true) as (to & Hbo & Ho).
  fold L in Hbn, Hbo, Hn, Ho.
  exists tn, to. split; [done|]. split; [done|]. split; [|split].
  - pose proof (Hn 0) as H0. pose proof (Hn L) as H1.
    case_decide; [|lia]. case_decide; [|lia].
    assert (He : forall k, entry (chars (strip p)) L false L k
                           = entry (chars (strip p)) L false 0 k).
    { intros k. rw /entry /=. repeat case_bool_decide; done || lia. }
    rw !He in H1.
    destruct Hb as [-> | ->]; eexists _, _, _; (split; [done|]); (split; [done|]).
    + split; apply row_of_k0.
    + split; apply row_of_k1.
  - intros s Hs. rw Hn Ho /entry /= (bool_decide_false (s = L)) //.
    by rw andb_false_r.
  - intros s Hs. rw Ho. case_decide; [done|lia].
Qed.

Lemma C3_witness :
  exists tn to,
    build_transitions (py "101") false = Ok (tn, 3)
    /\ build_transitions (py "101") true = Ok (to, 3)
    /\ (exists r0 rL n,
          tn !! 0 = Some r0 /\ tn !! 3 = Some rL
          /\ r0 !! k1 = Some n /\ rL !! k1 = Some n)
    /\ (forall s, s <> 3 -> tn !! s = to !! s)
    /\ (forall s, s < 3 -> is_Some (to !! s)).
Proof.
  apply (C3_non_overlap_differs_at_accept_only (py "101") k1);
    [by vm_compute | right; reflexivity].
Defined.

(** * The detector *)

Lemma well_formed_in_range (d : StreamMultiDetector) (i st L : nat) :
  well_formed d = true -> i < length (patterns d) ->
  states d !! i = Some st -> plens d !! i = Some L -> st <= L.
Proof.
  intros Hwf Hi Hst HL.
  apply (proj1 (well_formed_spec d) Hwf) in Hi.
  apply slot_ok_spec in Hi as (t & L' & st' & c & _ & HL' & Hst' & _ & _ & Hle).
  congruence.
Qed.

(** C4. On a valid bit, [step] moves the automaton of every pattern [i] to
    the entry of its table for its old state and the bit, and adds exactly one
    to counter [i] if that new state is the accept state [L_i], leaving the
    counter as it is otherwise.  The detector is any well-formed one, which
    is what the constructor returns and [step] maintains. *)
Theorem C4_step_advances_every_automaton (d : StreamMultiDetector) (bit : str) :
  well_formed d = true -> is_bit bit ->
  exists d',
    step bit d = (Ok tt, d')
    /\ length (states d') = length (states d)
    /\ length (counts d') = length (counts d)
    /\ forall i, i < length (patterns d) ->
         exists t st r n L c,
           tables d !! i = Some t /\ states d !! i = Some st
           /\ t !! st = Some r /\ r !! bit = Some n
           /\ plens d !! i = Some L /\ counts d !! i = Some c
           /\ states d' !! i = Some n
           /\ counts d' !! i = Some (if decide (n = L) then c + 1 else c).
Proof.
  intros Hwf Hb.
  destruct (step_spec bit d Hwf Hb) as (d' & Hs & Hc & Hadv & _).
  destruct Hc as (_ & _ & _ & _ & Hls & Hlc).
  exists d'. split; [done|]. split; [done|]. split; [done|].
  intros i Hi.
  destruct (Hadv i Hi) as (t & st & r & n & L & c & Hr & Hs' & Hc').
  destruct Hr as (? & ? & ? & ? & ? & ?).
  by exists t, st, r, n, L, c.
Qed.

Lemma C4_witness :
  exists d',
    step k1 example_detector = (Ok tt, d')
    /\ length (states d') = 1
    /\ length (counts d') = 1
    /\ forall i, i < 1 ->
         exists t st r n L c,
           tables example_detector !! i = Some t
           /\ states example_detector !! i = Some st
           /\ t !! st = Some r /\ r !! k1 = Some n
           /\ plens example_detector !! i = Some L
           /\ counts example_detector !! i = Some c
           /\ states d' !! i = Some n
           /\ counts d' !! i = Some (if decide (n = L) then c + 1 else c).
Proof.
  apply (C4_step_advances_every_automaton example_detector k1);
    [by vm_compute | right; reflexivity].
Defined.

(** C5. [step] raises its [ValueError] (the invalid-symbol error) if and only
    if the symbol is neither ['0'] nor ['1'].  When it does, the detector is
    left as it was, so that its snapshot is unchanged and any later step
    behaves as if the failed call had not been made; on a well-formed
    detector a later valid step succeeds. *)
Theorem C5_invalid_symbol_rejected_atomically
    (d : StreamMultiDetector) (bit b' : str) :
  ((exists msg, (step bit d).1 = Raise (ValueError msg)) <-> ~ is_bit bit)
  /\ (~ is_bit bit ->
      (step bit d).2 = d
      /\ snapshot (step bit d).2 = snapshot d
      /\ step b' (step bit d).2 = step b' d
      /\ (well_formed d = true -> is_bit b' ->
          exists d', step b' (step bit d).2 = (Ok tt, d'))).
Proof.
  split.
  - split.
    + intros [msg Hm] Hb. rw step_valid // in Hm.
      by apply for_each_no_ValueError in Hm.
    + intros Hb. rw step_invalid //. by eexists.
  - intros Hb. rw step_invalid //=. repeat split.
    intros Hwf Hb'. destruct (step_spec b' d Hwf Hb') as (d' & Hs & _).
    by exists d'.
Qed.

Lemma C5_witness :
  (step (py "2") example_detector).2 = example_detector
  /\ snapshot (step (py "2") example_detector).2 = snapshot example_detector
  /\ step k1 (step (py "2") example_detector).2 = step k1 example_detector
  /\ (well_formed example_detector = true -> is_bit k1 ->
      exists d', step k1 (step (py "2") example_detector).2 = (Ok tt, d')).
Proof.
  apply (proj2 (C5_invalid_symbol_rejected_atomically
                  example_detector (py "2") k1)).
  intros [H | H]; discriminate H.
Defined.

(** C6. The table built for a pattern of length L, under either policy, has
    for every state of {0,...,L} and every symbol of {0,1} one successor, and
    that successor is in {0,...,L}.  Hence, from the constructor on, every
    valid [step] returns normally, and the state of every automaton stays in
    {0,...,L_i}. *)
Theorem C6_table_total_and_in_range
    (p : str) (ov : bool) (ps : list str) (bits : list str) :
  (exists t,
     build_transitions p ov = Ok (t, length (strip p))
     /\ forall st b, st <= length (strip p) -> is_bit b ->
          exists r n, t !! st = Some r /\ r !! b = Some n
                      /\ n <= length (strip p))
  /\ (Forall is_bit bits ->
      exists d0 d,
        __init__ ps ov = Ok d0 /\ feed bits d0 = (Ok tt, d)
        /\ forall i q, ps !! i = Some q ->
             exists st, states d !! i = Some st
                        /\ plens d !! i = Some (length (strip q))
                        /\ st <= length (strip q)).
Proof.
  split.
  - destruct (build_transitions_spec p ov) as (t & Hb & _).
    exists t. split; [done|].
    apply build_transitions_closed in Hb as [_ Hc]. by apply closed_spec.
  - intros Hbits.
    destruct (reach_spec ps ov bits Hbits) as (d0 & d & Hn & Hf & Hc & Hwf).
    exists d0, d. split; [done|]. split; [done|]. intros i q Hq.
    destruct (init_spec ps ov) as (d0' & Hn' & Hp & _ & _ & Hl & _).
    assert (d0' = d0) as -> by congruence.
    destruct Hc as (Hp' & _ & _ & Hl' & _ & _).
    assert (Hi : i < length (patterns d))
      by (rw Hp' Hp; by eapply lookup_lt_Some).
    assert (HL : plens d !! i = Some (length (strip q)))
      by by rw Hl' Hl list_lookup_fmap Hq.
    apply (proj1 (well_formed_spec d) Hwf) in Hi as Hslot.
    apply slot_ok_spec in Hslot as (t & L & st & c & _ & HL2 & Hst & _ & _ & Hle).
    exists st. split; [done|]. split; [done|].
    eapply well_formed_in_range; done.
Qed.

Lemma C6_witness :
  exists d0 d,
    __init__ [py "101"; py "0"] false = Ok d0
    /\ feed [k1; k0; k1] d0 = (Ok tt, d)
    /\ forall i q, [py "101"; py "0"] !! i = Some q ->
         exists st, states d !! i = Some st
                    /\ plens d !! i = Some (length (strip q))
                    /\ st <= length (strip q).
Proof.
  apply (proj2 (C6_table_total_and_in_range
                  [] false [py "101"; py "0"] [k1; k0; k1])).
  repeat constructor; by (left + right).
Defined.

(** C7. Pattern ["101"], stream ["10101"], fed bit by bit to a new detector.
    Overlapping policy: the counter reads 0, 0, 1, 1, 2 after the five bits
    (the accept state 3 is reached at the bits of index 2 and 4), 2 in the
    end.  Non-overlapping policy: the counter ends at 1. *)
Theorem C7_overlap_101_on_10101 :
  (let? d := __init__ [py "101"] true in
   feed_trace (chars (py "10101")) d)%res
  = Ok [([0], [1]); ([0], [2]); ([1], [3]); ([1], [2]); ([2], [3])]
  /\ (let? d := __init__ [py "101"] false in
      feed_trace (chars (py "10101")) d)%res
     = Ok [([0], [1]); ([0], [2]); ([1], [3]); ([1], [0]); ([1], [1])]
  /\ (let? d := __init__ [py "101"] true in
      Ok (snapshot (feed (chars (py "10101")) d).2).1)%res = Ok [2]
  /\ (let? d := __init__ [py "101"] false in
      Ok (snapshot (feed (chars (py "10101")) d).2).1)%res = Ok [1].
Proof. repeat split; by vm_compute. Qed.

(** C8. After any sequence of valid steps, [reset] gives a detector whose
    snapshot has every counter and every state 0: it is the detector the
    constructor gives for the same patterns and policy. *)
Theorem C8_reset_gives_fresh_detector
    (ps : list str) (ov : bool) (bits : list str) :
  Forall is_bit bits ->
  exists d0 d d',
    __init__ ps ov = Ok d0 /\ feed bits d0 = (Ok tt, d)
    /\ patterns d = ps /\ allow_overlap d = ov
    /\ reset ps ov d = Ok d'
    /\ snapshot d' = (replicate (length ps) 0, replicate (length ps) 0)
    /\ snapshot d' = snapshot d0
    /\ d' = d0.
Proof.
  intros Hbits.
  destruct (reach_spec ps ov bits Hbits) as (d0 & d & Hn & Hf & Hc & _).
  destruct (init_spec ps ov) as (d0' & Hn' & Hp & Ho & _ & _ & Hs & Hcn).
  assert (d0' = d0) as -> by congruence.
  destruct Hc as (Hp' & Ho' & _).
  exists d0, d, d0. rw /reset Hp' Ho' Hp Ho /snapshot Hs Hcn.
  by repeat split.
Qed.

Lemma C8_witness :
  exists d0 d d',
    __init__ [py "101"; py "11"] true = Ok d0
    /\ feed [k1; k1; k0; k1] d0 = (Ok tt, d)
    /\ patterns d = [py "101"; py "11"] /\ allow_overlap d = true
    /\ reset [py "101"; py "11"] true d = Ok d'
    /\ snapshot d' = (replicate 2 0, replicate 2 0)
    /\ snapshot d' = snapshot d0
    /\ d' = d0.
Proof.
  apply (C8_reset_gives_fresh_detector [py "101"; py "11"] true [k1; k1; k0; k1]).
  repeat constructor; by (left + right).
Defined.

(** C9. [build_transitions] gives for a pattern string the table and the
    accept state it gives for the string stripped of its leading and trailing
    white space; a pattern of white space only is built as the empty
    pattern. *)
Theorem C9_surrounding_whitespace_is_stripped (p : str) (ov : bool) :
  build_transitions p ov = build_transitions (strip p) ov
  /\ (forallb isspace p = true ->
      build_transitions p ov = build_transitions [] ov).
Proof.
  split.
  - by rw /build_transitions strip_idemp.
  - intros Hp. rw /build_transitions strip_spaces //.
    apply Forall_forall. intros c Hc%list_elem_of_In.
    by apply (proj1 (forallb_forall _ _) Hp).
Qed.

Lemma C9_witness :
  build_transitions (py "  ") false = build_transitions [] false.
Proof.
  apply (proj2 (C9_surrounding_whitespace_is_stripped (py "  ") false)).
  reflexivity.
Defined.

(** C10. For the empty pattern the builder returns, under either policy, the
    accept state 0 and the table of the single state 0, which sends both
    symbols to 0.  In a detector that has the empty pattern at index [i],
    every valid step adds exactly one to counter [i]. *)
Theorem C10_empty_pattern_counts_every_step
    (ps : list str) (ov : bool) (i : nat) (bits : list str) (b : str) :
  ps !! i = Some [] -> Forall is_bit bits -> is_bit b ->
  build_transitions [] ov = Ok ({[0 := row_of 0 0]}, 0)
  /\ exists d0 d d' c,
       __init__ ps ov = Ok d0 /\ feed bits d0 = (Ok tt, d)
       /\ step b d = (Ok tt, d')
       /\ plens d !! i = Some 0
       /\ counts d !! i = Some c
       /\ counts d' !! i = Some (c + 1).
Proof.
  intros Hi Hbits Hb. split; [by destruct ov; vm_compute|].
  destruct (reach_spec ps ov bits Hbits) as (d0 & d & Hn & Hf & Hc & Hwf).
  destruct (init_spec ps ov) as (d0' & Hn' & Hp & _ & _ & Hl & _).
  assert (d0' = d0) as -> by congruence.
  destruct (step_spec b d Hwf Hb) as (d' & Hs & Hc' & Hadv & Hwf').
  destruct Hc as (Hp1 & _ & _ & Hl1 & _ & _).
  destruct Hc' as (Hp2 & _ & _ & Hl2 & _ & _).
  assert (Hlt : i < length (patterns d))
    by (rw Hp1 Hp; by eapply lookup_lt_Some).
  assert (HL : plens d !! i = Some 0)
    by by rw Hl1 Hl list_lookup_fmap Hi.
  destruct (Hadv i Hlt) as (t & st & r & n & L & c & Hr & Hs' & Hcnt).
  destruct Hr as (_ & _ & _ & _ & HL' & Hcd).
  assert (L = 0) as -> by congruence.
  assert (Hn0 : n <= 0).
  { apply (well_formed_in_range d' i n 0 Hwf'); [by rw Hp2|done|by rw Hl2]. }
  case_decide; [|lia].
  by exists d0, d, d', c.
Qed.

Lemma C10_witness :
  build_transitions [] false = Ok ({[0 := row_of 0 0]}, 0)
  /\ exists d0 d d' c,
       __init__ [py "11"; []] false = Ok d0 /\ feed [k1; k0] d0 = (Ok tt, d)
       /\ step k1 d = (Ok tt, d')
       /\ plens d !! 1 = Some 0
       /\ counts d !! 1 = Some c
       /\ counts d' !! 1 = Some (c + 1).
Proof.
  apply (C10_empty_pattern_counts_every_step [py "11"; []] false 1 [k1; k0] k1);
    [reflexivity | repeat constructor; by (left + right) | right; reflexivity].
Defined.

(** * What the automaton computes *)

Lemma filter_ext_in {A} (P Q : A -> Prop) `{!forall x, Decision (P x)}
    `{!forall x, Decision (Q x)} (l : list A) :
  (forall x, x ∈ l -> P x <-> Q x) -> filter P l = filter Q l.
Proof.
  induction l as [|x l IH]; intros Hl; [done|].
  rw !filter_cons IH; [|intros y Hy; apply Hl; by right].
  pose proof (Hl x (list_elem_of_here x l)).
  repeat case_decide; done || tauto.
Qed.

Section kmp.
Context (pat : list str).

Lemma lsp_nil : longest_suffix_prefix [] pat 0.
Proof.
  split.
  - exists []. split; [done|]. split; [apply suffix_nil | apply prefix_nil].
  - intros k (u & <- & Hs%suffix_nil_inv & _). by subst.
Qed.

Lemma lsp_unique (w : list str) (n m : nat) :
  longest_suffix_prefix w pat n -> longest_suffix_prefix w pat m -> n = m.
Proof.
  intros [Hn Hnmax] [Hm Hmmax].
  apply Hnmax in Hm. apply Hmmax in Hn. lia.
Qed.

Lemma suffix_prefix_take (w : list str) (s : nat) :
  suffix_prefix w pat s -> take s pat `suffix_of` w /\ s <= length pat.
Proof.
  intros (u & <- & Hs & [k ->]).
  rw take_app_length length_app. split; [done|lia].
Qed.

(** The step of the Knuth-Morris-Pratt automaton: the borders of [w ++ [b]]
    are those of [pat[0..s] ++ [b]], where [s] is the longest border of [w]. *)
Lemma kmp_step (w : list str) (s n : nat) (b : str) :
  longest_suffix_prefix w pat s ->
  longest_suffix_prefix (take s pat ++ [b]) pat n ->
  longest_suffix_prefix (w ++ [b]) pat n.
Proof.
  intros [Hs Hsmax] [(u & Hu & Hus & Hup) Hnmax].
  destruct (suffix_prefix_take w s Hs) as [Htake Hsl].
  split.
  - exists u. split; [done|]. split; [|done].
    etrans; [exact Hus|]. by apply suffix_app.
  - intros k (v & <- & Hvs & Hvp).
    destruct v as [|x v _] using rev_ind; [simpl; lia|].
    apply Hnmax. exists (v ++ [x]). split; [done|]. split; [|done].
    pose proof (suffix_snoc_inv_1 _ _ _ _ Hvs) as ->.
    apply suffix_snoc_inv_2 in Hvs. apply suffix_snoc.
    assert (Hvl : length v <= s).
    { apply Hsmax. exists v. split; [done|]. split; [done|].
      etrans; [|exact Hvp]. by apply prefix_app_r. }
    destruct (suffix_weak_total _ _ _ Hvs Htake) as [H|H]; [done|].
    apply suffix_length_eq in H as ->; [done|].
    rw length_take. lia.
Qed.

Lemma lsp_full (w : list str) (n : nat) :
  longest_suffix_prefix w pat n -> n = length pat <-> pat `suffix_of` w.
Proof.
  intros [(u & Hu & Hus & Hup) Hmax]. split.
  - intros ->. apply prefix_length_eq in Hup as <-; [done|lia].
  - intros Hp. apply prefix_length in Hup.
    assert (length pat <= n); [|lia].
    apply Hmax. by exists pat.
Qed.

Lemma occurrences_snoc (w : list str) (b : str) :
  occurrences pat (w ++ [b])
  = occurrences pat w + (if decide (pat `suffix_of` w ++ [b]) then 1 else 0).
Proof.
  rw /occurrences length_app /= Nat.add_1_r seq_S filter_app length_app.
  f_equal.
  - f_equal. apply filter_ext_in.
    intros k Hk%elem_of_seq. rw take_app_le //. lia.
  - rw /= filter_cons filter_nil.
    replace (take (S (length w)) (w ++ [b])) with (w ++ [b]); [by case_decide|].
    rw take_ge // length_app /=. lia.
Qed.

(** The transition function of the table built under the overlapping policy. *)
Lemma entry_overlap_spec (w : list str) (s : nat) (b : str) :
  longest_suffix_prefix w pat s ->
  longest_suffix_prefix (w ++ [b]) pat (entry pat (length pat) true s b).
Proof. intros Hs. apply (kmp_step w s); [done|]. apply nxt_spec. Qed.

Lemma auto_run_snoc (delta : nat -> str -> nat) (L : nat) (sc : nat * nat)
    (bits : list str) (b : str) :
  auto_run delta L sc (bits ++ [b])
  = auto_step delta L (auto_run delta L sc bits) b.
Proof. by rw /auto_run foldl_snoc. Qed.

Lemma overlap_run (w : list str) :
  let sc := auto_run (entry pat (length pat) true) (length pat) (0, 0) w in
  longest_suffix_prefix w pat sc.1 /\ sc.2 = occurrences pat w.
Proof.
  induction w as [|b w IH] using rev_ind; cbn zeta in *.
  - split; [apply lsp_nil | done].
  - destruct IH as [Hst Hc].
    rw auto_run_snoc occurrences_snoc /auto_step /=.
    pose proof (entry_overlap_spec w _ b Hst) as Hn.
    split; [done|]. rw Hc.
    pose proof (lsp_full _ _ Hn) as Hfull.
    repeat case_decide; tauto || lia.
Qed.

(** Under the non-overlapping policy the automaton follows the symbols read
    since the last match: it is in the accept state with nothing read since,
    or short of it at the longest border of what was read. *)
Lemma disjoint_run (seen rest : list str) (st c : nat) :
  (seen = [] /\ (st = length pat \/ st = 0))
  \/ (longest_suffix_prefix seen pat st /\ st < length pat) ->
  (auto_run (entry pat (length pat) false) (length pat) (st, c) rest).2
  = c + disjoint_occurrences pat seen rest.
Proof.
  revert seen st c. induction rest as [|b rest IH]; intros seen st c Hinv.
  - rw /=. lia.
  - assert (Hn : longest_suffix_prefix (seen ++ [b]) pat
                   (entry pat (length pat) false st b)).
    { destruct Hinv as [[-> Hst] | [Hlsp Hlt]].
      - assert (entry pat (length pat) false st b
                = nxt pat (length pat) 0 b) as ->.
        { rw /entry /=. destruct Hst as [-> | ->];
            repeat case_bool_decide; try done; try lia.
          by assert (length pat = 0) as -> by lia. }
        apply (kmp_step [] 0); [apply lsp_nil | apply nxt_spec].
      - assert (entry pat (length pat) false st b
                = nxt pat (length pat) st b) as ->.
        { rw /entry /=. repeat case_bool_decide; done || lia. }
        apply (kmp_step seen st); [done | apply nxt_spec]. }
    pose proof (lsp_full _ _ Hn) as Hfull.
    pose proof (entry_le pat (length pat) false st b) as Hle.
    rw /auto_run /= -/(auto_run _ _ _ rest) /auto_step /=.
    destruct (decide (pat `suffix_of` seen ++ [b])) as [Hm|Hm].
    + apply Hfull in Hm. case_decide; [|done]. rw (IH []); [lia|].
      left. split; [done|]. by left.
    + case_decide as He; [by apply Hfull in He|].
      rw (IH (seen ++ [b])); [done|].
      right. split; [done|lia].
Qed.

End kmp.

(** ** Each automaton of a detector runs on its own *)

Lemma step_auto (d : StreamMultiDetector) (i : nat)
    (t : gmap nat (gmap (list N) nat)) (L st c : nat)
    (delta : nat -> str -> nat) (bit : str) :
  well_formed d = true -> is_bit bit -> i < length (patterns d) ->
  tables d !! i = Some t -> plens d !! i = Some L ->
  states d !! i = Some st -> counts d !! i = Some c ->
  table_agrees t delta L ->
  exists d',
    step bit d = (Ok tt, d') /\ well_formed d' = true /\ same_config d d'
    /\ states d' !! i = Some (auto_step delta L (st, c) bit).1
    /\ counts d' !! i = Some (auto_step delta L (st, c) bit).2.
Proof.
  intros Hwf Hb Hi Ht HL Hst Hc Hag.
  destruct (step_spec bit d Hwf Hb) as (d' & Hs & Hcfg & Hadv & Hwf').
  exists d'. split; [done|]. split; [done|]. split; [done|].
  destruct (Hadv i Hi) as (t' & st' & r & n & L' & c' & Hr & Hs' & Hc').
  destruct Hr as (Ht' & Hst' & Hr & Hn & HL' & Hcc).
  assert (t' = t) as -> by congruence.
  assert (st' = st) as -> by congruence.
  assert (L' = L) as -> by congruence.
  assert (c' = c) as -> by congruence.
  pose proof (well_formed_in_range d i st L Hwf Hi Hst HL) as Hle.
  destruct (Hag st bit Hle Hb) as (r' & Hr' & Hn').
  assert (r' = r) as -> by congruence.
  assert (n = delta st bit) as -> by congruence.
  by rw /auto_step /=.
Qed.

Lemma feed_auto (bits : list str) (d : StreamMultiDetector) (i : nat)
    (t : gmap nat (gmap (list N) nat)) (L st c : nat)
    (delta : nat -> str -> nat) :
  well_formed d = true -> Forall is_bit bits -> i < length (patterns d) ->
  tables d !! i = Some t -> plens d !! i = Some L ->
  states d !! i = Some st -> counts d !! i = Some c ->
  table_agrees t delta L ->
  exists d',
    feed bits d = (Ok tt, d')
    /\ states d' !! i = Some (auto_run delta L (st, c) bits).1
    /\ counts d' !! i = Some (auto_run delta L (st, c) bits).2.
Proof.
  intros Hwf Hbits. revert d st c Hwf.
  induction Hbits as [|b bits Hb _ IH]; intros d st c Hwf Hi Ht HL Hst Hc Hag.
  - by exists d.
  - destruct (step_auto d i t L st c delta b Hwf Hb Hi Ht HL Hst Hc Hag)
      as (d1 & Hs & Hwf1 & Hcfg & Hst1 & Hc1).
    destruct Hcfg as (Hp1 & _ & Ht1 & Hl1 & _ & _).
    destruct (IH d1 (auto_step delta L (st, c) b).1
                (auto_step delta L (st, c) b).2 Hwf1)
      as (d' & Hf & Hst' & Hc'); try done.
    { by rw Hp1. } { by rw Ht1. } { by rw Hl1. }
    exists d'. split; [by rw /feed /= /bind Hs|].
    by rw /auto_run /auto_step /= in Hst' Hc' |- *.
Qed.

Lemma init_slot (ps : list str) (ov : bool) (d0 : StreamMultiDetector)
    (i : nat) (p : str) :
  __init__ ps ov = Ok d0 -> ps !! i = Some p ->
  exists t,
    i < length (patterns d0)
    /\ tables d0 !! i = Some t
    /\ plens d0 !! i = Some (length (strip p))
    /\ states d0 !! i = Some 0 /\ counts d0 !! i = Some 0
    /\ table_agrees t (entry (chars (strip p)) (length (strip p)) ov)
         (length (strip p)).
Proof.
  intros Hn Hp.
  destruct (init_spec ps ov) as (d & Hn' & Hps & _ & Hf & Hl & Hs & Hc).
  assert (d = d0) as -> by congruence.
  pose proof (lookup_lt_Some _ _ _ Hp) as Hi.
  destruct (Forall2_lookup_l _ _ _ _ _ Hf Hp) as (t & Hti & Hb).
  exists t. rw Hps Hl Hs Hc list_lookup_fmap Hp !lookup_replicate_2 //.
  repeat split; try done.
  destruct (build_transitions_spec p ov) as (t' & Hb' & Hlook).
  assert (t' = t) as -> by congruence.
  intros s b Hsl Hbit. rw Hlook. case_decide; [|lia].
  eexists. split; [done|].
  destruct Hbit as [-> | ->]; [apply row_of_k0 | apply row_of_k1].
Qed.

Lemma reach_auto (ps : list str) (ov : bool) (i : nat) (p : str)
    (bits : list str) :
  ps !! i = Some p -> Forall is_bit bits ->
  let L := length (strip p) in
  let sc := auto_run (entry (chars (strip p)) L ov) L (0, 0) bits in
  exists d0 d,
    __init__ ps ov = Ok d0 /\ feed bits d0 = (Ok tt, d)
    /\ states d !! i = Some sc.1 /\ counts d !! i = Some sc.2.
Proof.
  intros Hp Hbits L sc.
  destruct (init_spec ps ov) as (d0 & Hn & _).
  destruct (init_slot ps ov d0 i p Hn Hp)
    as (t & Hi & Ht & HL & Hst & Hc & Hag).
  destruct (feed_auto bits d0 i t L 0 0 _ (init_well_formed _ _ _ Hn)
              Hbits Hi Ht HL Hst Hc Hag) as (d & Hf & Hs' & Hc').
  by exists d0, d.
Qed.

Lemma chars_length (s : str) : length (chars s) = length s.
Proof. by rw /chars length_fmap. Qed.

(** Valid bits, for a closed list of them. *)
Ltac solve_bits := vm_compute; repeat constructor; by (left + right).

(** X1. Under the overlapping policy, the state of automaton [i] after a
    stream of valid bits is the length of the longest suffix of the stream
    that is a prefix of the pattern. *)
Theorem X1_overlap_state_is_longest_border
    (ps : list str) (i : nat) (p : str) (bits : list str) :
  ps !! i = Some p -> Forall is_bit bits ->
  exists d0 d st,
    __init__ ps true = Ok d0 /\ feed bits d0 = (Ok tt, d)
    /\ states d !! i = Some st
    /\ longest_suffix_prefix bits (chars (strip p)) st.
Proof.
  intros Hp Hbits.
  destruct (reach_auto ps true i p bits Hp Hbits) as (d0 & d & Hn & Hf & Hs & _).
  exists d0, d. eexists. split; [done|]. split; [done|]. split; [exact Hs|].
  rw -(chars_length (strip p)). apply (overlap_run (chars (strip p)) bits).
Qed.

Lemma X1_witness :
  exists d0 d st,
    __init__ [py "0"; py "1011"] true = Ok d0
    /\ feed (chars (py "110101")) d0 = (Ok tt, d)
    /\ states d !! 1 = Some st
    /\ longest_suffix_prefix (chars (py "110101")) (chars (strip (py "1011"))) st.
Proof.
  apply (X1_overlap_state_is_longest_border
           [py "0"; py "1011"] 1 (py "1011") (chars (py "110101")));
    [reflexivity | solve_bits].
Defined.

(** X2. Under the overlapping policy, counter [i] after a stream of valid
    bits is the number of positions of the stream at which an occurrence of
    the pattern ends; occurrences that overlap are all counted. *)
Theorem X2_overlap_count_is_occurrences
    (ps : list str) (i : nat) (p : str) (bits : list str) :
  ps !! i = Some p -> Forall is_bit bits ->
  exists d0 d,
    __init__ ps true = Ok d0 /\ feed bits d0 = (Ok tt, d)
    /\ counts d !! i = Some (occurrences (chars (strip p)) bits).
Proof.
  intros Hp Hbits.
  destruct (reach_auto ps true i p bits Hp Hbits) as (d0 & d & Hn & Hf & _ & Hc).
  exists d0, d. split; [done|]. split; [done|]. rw Hc. f_equal.
  rw -(chars_length (strip p)). apply (overlap_run (chars (strip p)) bits).
Qed.

Lemma X2_witness :
  exists d0 d,
    __init__ [py "11"; py "101"] true = Ok d0
    /\ feed (chars (py "1110101")) d0 = (Ok tt, d)
    /\ counts d !! 1
       = Some (occurrences (chars (strip (py "101"))) (chars (py "1110101"))).
Proof.
  apply (X2_overlap_count_is_occurrences
           [py "11"; py "101"] 1 (py "101") (chars (py "1110101")));
    [reflexivity | solve_bits].
Defined.

(** X3. Under the non-overlapping policy, counter [i] after a stream of valid
    bits is the number of occurrences of the pattern found from left to right
    without sharing a symbol: after an occurrence the search starts anew. *)
Theorem X3_non_overlap_count_is_disjoint_occurrences
    (ps : list str) (i : nat) (p : str) (bits : list str) :
  ps !! i = Some p -> Forall is_bit bits ->
  exists d0 d,
    __init__ ps false = Ok d0 /\ feed bits d0 = (Ok tt, d)
    /\ counts d !! i = Some (disjoint_occurrences (chars (strip p)) [] bits).
Proof.
  intros Hp Hbits.
  destruct (reach_auto ps false i p bits Hp Hbits) as (d0 & d & Hn & Hf & _ & Hc).
  exists d0, d. split; [done|]. split; [done|]. rw Hc. f_equal.
  rw -(chars_length (strip p)).
  rw (disjoint_run (chars (strip p)) [] bits 0 0) //.
  left. split; [done|]. by right.
Qed.

Lemma X3_witness :
  exists d0 d,
    __init__ [py "11"; py "101"] false = Ok d0
    /\ feed (chars (py "1110101")) d0 = (Ok tt, d)
    /\ counts d !! 1
       = Some (disjoint_occurrences (chars (strip (py "101"))) []
                 (chars (py "1110101"))).
Proof.
  apply (X3_non_overlap_count_is_disjoint_occurrences
           [py "11"; py "101"] 1 (py "101") (chars (py "1110101")));
    [reflexivity | solve_bits].
Defined.

(** X4. The patterns of a detector do not interact: the state and the counter
    of pattern [i] are those of a detector built for that pattern alone and
    fed the same bits. *)
Theorem X4_patterns_are_independent
    (ps : list str) (ov : bool) (i : nat) (p : str) (bits : list str) :
  ps !! i = Some p -> Forall is_bit bits ->
  exists d0 d e0 e st c,
    __init__ ps ov = Ok d0 /\ feed bits d0 = (Ok tt, d)
    /\ __init__ [p] ov = Ok e0 /\ feed bits e0 = (Ok tt, e)
    /\ states d !! i = Some st /\ states e !! 0 = Some st
    /\ counts d !! i = Some c /\ counts e !! 0 = Some c.
Proof.
  intros Hp Hbits.
  destruct (reach_auto ps ov i p bits Hp Hbits) as (d0 & d & Hn & Hf & Hs & Hc).
  destruct (reach_auto [p] ov 0 p bits eq_refl Hbits)
    as (e0 & e & Hn' & Hf' & Hs' & Hc').
  eexists d0, d, e0, e, _, _. by repeat split.
Qed.

Lemma X4_witness :
  exists d0 d e0 e st c,
    __init__ [py "11"; py "101"] false = Ok d0
    /\ feed (chars (py "1110101")) d0 = (Ok tt, d)
    /\ __init__ [py "101"] false = Ok e0
    /\ feed (chars (py "1110101")) e0 = (Ok tt, e)
    /\ states d !! 1 = Some st /\ states e !! 0 = Some st
    /\ counts d !! 1 = Some c /\ counts e !! 0 = Some c.
Proof.
  apply (X4_patterns_are_independent
           [py "11"; py "101"] false 1 (py "101") (chars (py "1110101")));
    [reflexivity | solve_bits].
Defined.

(** ** More on the table *)

Lemma row_of_other (a b : nat) (k : str) :
  ~ is_bit k -> row_of a b !! k = None.
Proof.
  intros Hk. rw /row_of !lookup_insert_ne; [done|..].
  - intros <-. apply Hk. by left.
  - intros <-. apply Hk. by right.
Qed.

(** X5. The table that is built has an entry for a state and a key exactly
    when the state is in {0,...,L} and the key is ['0'] or ['1']: there is no
    row beyond the accept state and no other key in a row. *)
Theorem X5_table_has_no_other_entry (p : str) (ov : bool) :
  exists t,
    build_transitions p ov = Ok (t, length (strip p))
    /\ (forall st, is_Some (t !! st) <-> st <= length (strip p))
    /\ (forall st k,
          (exists r n, t !! st = Some r /\ r !! k = Some n)
          <-> st <= length (strip p) /\ is_bit k).
Proof.
  destruct (build_transitions_spec p ov) as (t & Hb & Hl).
  exists t. split; [done|]. split.
  - intros st. rw Hl. case_decide; split; done.
  - intros st k. rw Hl. split.
    + intros (r & n & Hr & Hn). case_decide; [|done]. split; [done|].
      injection Hr as <-.
      destruct (decide (is_bit k)) as [|Hk]; [done|].
      by rw row_of_other in Hn.
    + intros [Hst Hk]. case_decide; [|lia].
      destruct Hk as [-> | ->]; eexists _, _; (split; [done|]).
      * apply row_of_k0.
      * apply row_of_k1.
Qed.

Lemma entry_forward (seq : list str) (ov : bool) (k : nat) (x : str) :
  seq !! k = Some x -> entry seq (length seq) ov k x = S k.
Proof.
  intros Hx. pose proof (lookup_lt_Some _ _ _ Hx) as Hk.
  assert (entry seq (length seq) ov k x = nxt seq (length seq) k x) as ->.
  { rw /entry. repeat case_bool_decide; try lia; by rw ?andb_false_r. }
  destruct (nxt_spec seq k x) as [Hsp Hmax].
  apply suffix_prefix_bound in Hsp.
  rw length_app length_take /= in Hsp.
  assert (S k <= nxt seq (length seq) k x); [|lia].
  apply Hmax. exists (take k seq ++ [x]). split; [|split; [done|]].
  - rw length_app length_take /=. lia.
  - rw -(take_S_r _ _ _ Hx). apply prefix_take.
Qed.

(** X6. Reading the next symbol of the pattern moves the automaton one state
    forward: if symbol number [s] of the pattern is the bit [b], the table has
    [s + 1] at [(s, b)], under either policy. *)
Theorem X6_next_symbol_advances (p : str) (ov : bool) (s : nat) (b : str) :
  chars (strip p) !! s = Some b -> is_bit b ->
  exists t r,
    build_transitions p ov = Ok (t, length (strip p))
    /\ t !! s = Some r /\ r !! b = Some (S s).
Proof.
  intros Hs Hb.
  destruct (build_transitions_spec p ov) as (t & Hbuild & Hl).
  pose proof (lookup_lt_Some _ _ _ Hs) as Hlt. rw chars_length in Hlt.
  exists t. eexists. split; [done|]. rw Hl. case_decide; [|lia].
  split; [done|].
  destruct Hb as [-> | ->].
  - by rw row_of_k0 -(chars_length (strip p)) entry_forward.
  - by rw row_of_k1 -(chars_length (strip p)) entry_forward.
Qed.

Lemma X6_witness :
  exists t r,
    build_transitions (py " 1101 ") false = Ok (t, length (strip (py " 1101 ")))
    /\ t !! 2 = Some r /\ r !! k0 = Some 3.
Proof.
  apply (X6_next_symbol_advances (py " 1101 ") false 2 k0);
    [reflexivity | left; reflexivity].
Defined.

Lemma run_prefix (seq : list str) (ov : bool) (k : nat) :
  1 <= length seq -> k <= length seq ->
  auto_run (entry seq (length seq) ov) (length seq) (0, 0) (take k seq)
  = (k, if decide (k = length seq) then 1 else 0).
Proof.
  intros HL. induction k as [|k IH]; intros Hk.
  - rw take_0 /=. case_decide; [lia|done].
  - destruct (lookup_lt_is_Some_2 seq k) as [x Hx]; [lia|].
    rw (take_S_r _ _ _ Hx) auto_run_snoc IH; [|lia].
    rw /auto_step /= (entry_forward _ _ _ _ Hx).
    repeat case_decide; try lia; done.
Qed.

Lemma binary_chars_bits (s : str) :
  binary s = true -> Forall is_bit (chars s).
Proof.
  intros H%binary_spec. rw /chars. apply Forall_fmap.
  eapply Forall_impl; [exact H|]. intros c [-> | ->]; [by left | by right].
Qed.

(** X7. A detector fed the bits of one of its patterns, a pattern over {0,1}
    that is not empty, has counted that pattern once and has its automaton in
    the accept state, under either policy. *)
Theorem X7_pattern_is_detected
    (ps : list str) (ov : bool) (i : nat) (p : str) :
  ps !! i = Some p -> binary p = true -> p <> [] ->
  exists d0 d,
    __init__ ps ov = Ok d0 /\ feed (chars p) d0 = (Ok tt, d)
    /\ states d !! i = Some (length p) /\ counts d !! i = Some 1.
Proof.
  intros Hp Hbin Hne.
  destruct (reach_auto ps ov i p (chars p) Hp (binary_chars_bits p Hbin))
    as (d0 & d & Hn & Hf & Hs & Hc).
  exists d0, d. split; [done|]. split; [done|].
  rw (strip_binary p Hbin) -(chars_length p) in Hs Hc.
  assert (HL : 1 <= length (chars p)).
  { rw chars_length. destruct p; [done|simpl; lia]. }
  pose proof (run_prefix (chars p) ov (length (chars p)) HL (le_n _)) as Hrun.
  rw firstn_all in Hrun. rw Hrun /= in Hs Hc.
  case_decide; [|done]. by rw chars_length in Hs.
Qed.

Lemma X7_witness :
  exists d0 d,
    __init__ [py "0"; py "1101"] false = Ok d0
    /\ feed (chars (py "1101")) d0 = (Ok tt, d)
    /\ states d !! 1 = Some (length (py "1101")) /\ counts d !! 1 = Some 1.
Proof.
  apply (X7_pattern_is_detected [py "0"; py "1101"] false 1 (py "1101"));
    [reflexivity | reflexivity | discriminate].
Defined.

(** ** Counters *)

(** X8. Feeding valid bits to a well-formed detector leaves its patterns, its
    policy, its tables and its accept states as they are, never lowers a
    counter, and raises a counter by at most one for each bit. *)
Theorem X8_counters_grow_by_at_most_one_per_bit
    (d : StreamMultiDetector) (bits : list str) (i c : nat) :
  well_formed d = true -> Forall is_bit bits ->
  i < length (patterns d) -> counts d !! i = Some c ->
  exists d' c',
    feed bits d = (Ok tt, d')
    /\ patterns d' = patterns d /\ allow_overlap d' = allow_overlap d
    /\ tables d' = tables d /\ plens d' = plens d
    /\ counts d' !! i = Some c' /\ c <= c' <= c + length bits.
Proof.
  intros Hwf Hbits. revert d c Hwf.
  induction Hbits as [|b bits Hb _ IH]; intros d c Hwf Hi Hc.
  - exists d, c. repeat split; try done. simpl. lia.
  - destruct (step_spec b d Hwf Hb) as (d1 & Hs & Hcfg & Hadv & Hwf1).
    destruct Hcfg as (Hp1 & Ho1 & Ht1 & Hl1 & _ & _).
    destruct (Hadv i Hi) as (t & st & r & n & L & c0 & Hr & _ & Hc1).
    destruct Hr as (_ & _ & _ & _ & _ & Hc0).
    assert (c0 = c) as -> by congruence.
    assert (Hi1 : i < length (patterns d1)) by by rw Hp1.
    destruct (IH d1 _ Hwf1 Hi1 Hc1)
      as (d' & c' & Hf & Hp' & Ho' & Ht' & Hl' & Hc' & Hle).
    exists d', c'. split; [by rw /feed /= /bind Hs|].
    repeat split; try congruence.
    + case_decide; lia.
    + simpl. case_decide; lia.
Qed.

Lemma X8_witness :
  exists d' c',
    feed [k1; k0; k1] example_detector = (Ok tt, d')
    /\ patterns d' = patterns example_detector
    /\ allow_overlap d' = allow_overlap example_detector
    /\ tables d' = tables example_detector
    /\ plens d' = plens example_detector
    /\ counts d' !! 0 = Some c' /\ 0 <= c' <= 0 + length [k1; k0; k1].
Proof.
  apply (X8_counters_grow_by_at_most_one_per_bit example_detector [k1; k0; k1] 0 0);
    [by vm_compute | solve_bits | vm_compute; lia | reflexivity].
Defined.

(** X9. The loop that feeds bits stops at the first symbol that is not a
    bit: [step] raises its [ValueError] there, the bits before it have had
    their effect, and those after it are not read. *)
Theorem X9_feed_stops_at_first_invalid_symbol
    (d : StreamMultiDetector) (good : list str) (bad : str) (rest : list str) :
  well_formed d = true -> Forall is_bit good -> ~ is_bit bad ->
  exists d1,
    feed good d = (Ok tt, d1)
    /\ feed (good ++ bad :: rest) d
       = (Raise (ValueError "Bit must be '0' or '1'"), d1).
Proof.
  intros Hwf Hgood Hbad. revert d Hwf.
  induction Hgood as [|b good Hb _ IH]; intros d Hwf.
  - exists d. split; [done|]. by rw /feed /= /bind step_invalid.
  - destruct (step_spec b d Hwf Hb) as (d1 & Hs & _ & _ & Hwf1).
    destruct (IH d1 Hwf1) as (d2 & Hf & Hfb).
    exists d2. by rw /feed /= /bind Hs.
Qed.

Lemma X9_witness :
  exists d1,
    feed [k1; k0] example_detector = (Ok tt, d1)
    /\ feed ([k1; k0] ++ py "2" :: [k1]) example_detector
       = (Raise (ValueError "Bit must be '0' or '1'"), d1).
Proof.
  apply (X9_feed_stops_at_first_invalid_symbol example_detector [k1; k0] (py "2") [k1]);
    [by vm_compute | solve_bits | intros [H | H]; discriminate H].
Defined.

(** * The console programs *)

Lemma not_bit_char (c : N) :
  bool_decide ([c] ∉ [k0; k1]) = negb ((c =? 48) || (c =? 49))%N.
Proof.
  destruct (N.eqb_spec c 48) as [->|H0]; [done|].
  destruct (N.eqb_spec c 49) as [->|H1]; [done|].
  apply bool_decide_eq_true. rw elem_of_bits.
  intros [H | H]; vm_compute in H; congruence.
Qed.

Lemma existsb_not_bit (s : str) :
  existsb (fun c => bool_decide ([c] ∉ [k0; k1])) s = negb (binary s).
Proof.
  induction s as [|c s IH]; [done|].
  by rw /= IH not_bit_char negb_andb.
Qed.

Lemma rejected_spec (s : str) :
  rejected s = false <-> s <> [] /\ binary s = true.
Proof.
  rw /rejected existsb_not_bit orb_false_iff bool_decide_eq_false
     negb_false_iff. done.
Qed.

Lemma prompt_patterns_loop_accepted (lines out pats r : list str) :
  Forall accepted pats ->
  (prompt_patterns_loop lines out pats).1 = Return r ->
  r <> [] /\ Forall accepted r.
Proof.
  revert out pats. induction lines as [|l lines IH]; intros out pats Hpats;
    [done|].
  cbn [prompt_patterns_loop]. cbn zeta.
  destruct (decide (strip l = [])) as [_|Hl].
  - destruct (decide (pats = [])) as [|Hne]; [done|].
    intros [= <-]. done.
  - destruct (rejected (strip l)) eqn:Hrej; [by apply IH|].
    apply IH. apply Forall_app. split; [done|].
    constructor; [|done]. split; [done | apply strip_idemp].
Qed.

Lemma prompt_patterns_loop_spec (pre : list str) (l : str)
    (post out pats : list str) :
  Forall (fun x => strip x <> []) pre -> strip l = [] ->
  let acc := pats ++ filter (fun x => rejected x = false) (strip <$> pre) in
  (prompt_patterns_loop (pre ++ l :: post) out pats).1
  = (if decide (acc = []) then Abort (SystemExit 0) else Return acc)
  /\ stdin (prompt_patterns_loop (pre ++ l :: post) out pats).2 = post.
Proof.
  intros Hpre Hl. revert out pats.
  induction Hpre as [|x pre Hx _ IH]; intros out pats; cbn zeta.
  - rw /= Hl /= app_nil_r.
    destruct (decide (pats = [])); by repeat case_decide.
  - cbn [app prompt_patterns_loop fmap list_fmap]. cbn zeta.
    destruct (decide (strip x = [])) as [|_]; [done|].
    rw filter_cons.
    destruct (rejected (strip x)) eqn:Hrej.
    + destruct (decide (true = false)) as [|_]; [done|]. apply IH.
    + destruct (decide (false = false)) as [_|]; [|done].
      pose proof (IH (out ++ [py "> "]) (pats ++ [strip x])) as IH'.
      cbn zeta in IH'. by rw -assoc_L /= in IH'.
Qed.

Lemma prompt_patterns_loop_eof (lines out pats : list str) :
  Forall (fun x => strip x <> []) lines ->
  prompt_patterns_loop lines out pats
  = (Abort EOFError,
     {| stdin := [];
        stdout := (prompt_patterns_loop lines out pats).2.(stdout) |}).
Proof.
  intros Hl. revert out pats.
  induction Hl as [|x lines Hx _ IH]; intros out pats; [done|].
  cbn [prompt_patterns_loop]. cbn zeta.
  destruct (decide (strip x = [])) as [|_]; [done|].
  destruct (rejected (strip x)); apply IH.
Qed.

(** X10. [prompt_patterns] reads up to the first line that is blank once
    stripped.  It returns, in order, the stripped lines read before it that
    are not empty and hold only 0 and 1, and leaves the input after the blank
    line unread; when no line qualifies it calls [sys.exit(0)] instead. *)
Theorem X10_prompt_patterns_returns_the_valid_lines
    (c : console) (pre : list str) (l : str) (post : list str) :
  stdin c = pre ++ l :: post ->
  Forall (fun x => strip x <> []) pre -> strip l = [] ->
  let acc := filter (fun x => rejected x = false) (strip <$> pre) in
  (prompt_patterns c).1
  = (if decide (acc = []) then Abort (SystemExit 0) else Return acc)
  /\ stdin (prompt_patterns c).2 = post.
Proof.
  intros Hc Hpre Hl. rw /prompt_patterns Hc.
  apply (prompt_patterns_loop_spec pre l post _ [] Hpre Hl).
Qed.

Lemma X10_witness :
  let c := {| stdin := py <$> ["101"; " 12"; "11 "; " "; "1"]; stdout := [] |} in
  let acc := filter (fun x => rejected x = false)
               (strip <$> (py <$> ["101"; " 12"; "11 "])) in
  (prompt_patterns c).1
  = (if decide (acc = []) then Abort (SystemExit 0) else Return acc)
  /\ stdin (prompt_patterns c).2 = [py "1"].
Proof.
  apply (X10_prompt_patterns_returns_the_valid_lines
           {| stdin := py <$> ["101"; " 12"; "11 "; " "; "1"]; stdout := [] |}
           (py <$> ["101"; " 12"; "11 "]) (py " ") [py "1"]);
    [reflexivity | repeat constructor; discriminate | reflexivity].
Defined.

(** X11. Every pattern [prompt_patterns] returns is not empty, holds only 0
    and 1 and has no white space around it, and at least one is returned. *)
Theorem X11_prompt_patterns_returns_valid_patterns
    (c : console) (pats : list str) :
  (prompt_patterns c).1 = Return pats ->
  pats <> []
  /\ Forall (fun p => p <> [] /\ binary p = true /\ strip p = p) pats.
Proof.
  intros Hr.
  apply prompt_patterns_loop_accepted in Hr as [Hne Hall]; [|done].
  split; [done|]. eapply Forall_impl; [exact Hall|].
  intros p [[? ?]%rejected_spec ?]. done.
Qed.

Lemma X11_witness :
  let c := {| stdin := py <$> ["101"; " 12"; "11 "; " "; "1"]; stdout := [] |} in
  (prompt_patterns c).1 = Return [py "101"; py "11"]
  /\ [py "101"; py "11"] <> []
  /\ Forall (fun p => p <> [] /\ binary p = true /\ strip p = p)
            [py "101"; py "11"].
Proof.
  split; [reflexivity|].
  apply (X11_prompt_patterns_returns_valid_patterns
           {| stdin := py <$> ["101"; " 12"; "11 "; " "; "1"]; stdout := [] |}
           [py "101"; py "11"]).
  reflexivity.
Defined.

(** X12. For the patterns [prompt_patterns] returns, the constructor gives
    each automaton the length of its pattern as accept state: the [len=] that
    [main] prints for a pattern is its accept state. *)
Theorem X12_prompted_patterns_accept_at_their_length
    (c : console) (pats : list str) (ov : bool) :
  (prompt_patterns c).1 = Return pats ->
  exists d, __init__ pats ov = Ok d /\ plens d = (length <$> pats).
Proof.
  intros Hr.
  apply prompt_patterns_loop_accepted in Hr as [_ Hall]; [|done].
  destruct (init_spec pats ov) as (d & Hn & _ & _ & _ & Hl & _).
  exists d. split; [done|]. rw Hl.
  apply Forall_fmap_ext_1. eapply Forall_impl; [exact Hall|].
  intros p [_ Hs]. by rw /= Hs.
Qed.

Lemma X12_witness :
  (prompt_patterns
     {| stdin := py <$> ["101"; " 12"; "11 "; " "; "1"]; stdout := [] |}).1
  = Return [py "101"; py "11"]
  /\ exists d,
       __init__ [py "101"; py "11"] true = Ok d
       /\ plens d = (length <$> [py "101"; py "11"]).
Proof.
  split; [reflexivity|].
  apply (X12_prompted_patterns_accept_at_their_length
           {| stdin := py <$> ["101"; " 12"; "11 "; " "; "1"]; stdout := [] |}
           [py "101"; py "11"] true).
  reflexivity.
Defined.

(** X13. When no line of the input is blank once stripped, [prompt_patterns]
    reads all of it and ends with the [EOFError] of [input]. *)
Theorem X13_prompt_patterns_needs_a_blank_line (c : console) :
  Forall (fun x => strip x <> []) (stdin c) ->
  (prompt_patterns c).1 = Abort EOFError /\ stdin (prompt_patterns c).2 = [].
Proof.
  intros Hl. rw /prompt_patterns.
  by rw (prompt_patterns_loop_eof _ _ _ Hl).
Qed.

Lemma X13_witness :
  let c := {| stdin := py <$> ["101"; "x"]; stdout := [] |} in
  (prompt_patterns c).1 = Abort EOFError /\ stdin (prompt_patterns c).2 = [].
Proof.
  apply (X13_prompt_patterns_needs_a_blank_line
           {| stdin := py <$> ["101"; "x"]; stdout := [] |}).
  repeat constructor; discriminate.
Defined.

Lemma prompt_overlap_loop_spec (pre : list str) (l : str)
    (post out : list str) :
  Forall (fun x => strip x <> py "1" /\ strip x <> py "2") pre ->
  strip l = py "1" \/ strip l = py "2" ->
  prompt_overlap_loop (pre ++ l :: post) out
  = (Return (bool_decide (strip l = py "1")),
     {| stdin := post;
        stdout :=
          out
          ++ flat_map (fun _ => [py "Enter 1 or 2: ";
                                 py "Invalid choice. Please enter 1 or 2."
                                 ++ [10%N]]) pre
          ++ [py "Enter 1 or 2: "] |}).
Proof.
  intros Hpre Hl. revert out.
  induction Hpre as [|x pre [Hx1 Hx2] _ IH]; intros out.
  - cbn [app prompt_overlap_loop flat_map]. cbn zeta.
    destruct Hl as [Hl | Hl]; rw Hl; by repeat case_decide.
  - cbn [app prompt_overlap_loop flat_map]. cbn zeta.
    destruct (decide (strip x = py "1")) as [|_]; [done|].
    destruct (decide (strip x = py "2")) as [|_]; [done|].
    rw IH /print. do 2 f_equal. by rw -!assoc_L.
Qed.

(** X14. [prompt_overlap] skips, with one message each, the lines that are
    neither [1] nor [2] once stripped, and returns on the first line that is:
    [True] for [1] and [False] for [2].  The input after that line is left
    unread. *)
Theorem X14_prompt_overlap_returns_the_first_choice
    (c : console) (pre : list str) (l : str) (post : list str) :
  stdin c = pre ++ l :: post ->
  Forall (fun x => strip x <> py "1" /\ strip x <> py "2") pre ->
  strip l = py "1" \/ strip l = py "2" ->
  prompt_overlap c
  = (Return (bool_decide (strip l = py "1")),
     {| stdin := post;
        stdout :=
          stdout c
          ++ [[10%N] ++ py "Matching mode:" ++ [10%N];
              py "  1) Overlapping" ++ [10%N];
              py "  2) Non-overlapping" ++ [10%N]]
          ++ flat_map (fun _ => [py "Enter 1 or 2: ";
                                 py "Invalid choice. Please enter 1 or 2."
                                 ++ [10%N]]) pre
          ++ [py "Enter 1 or 2: "] |}).
Proof.
  intros Hc Hpre Hl.
  rw /prompt_overlap Hc (prompt_overlap_loop_spec pre l post _ Hpre Hl) /print.
  do 2 f_equal. by rw -!assoc_L.
Qed.

Lemma X14_witness :
  prompt_overlap {| stdin := py <$> ["3"; "12"; " 2 "; "1"]; stdout := [] |}
  = (Return (bool_decide (strip (py " 2 ") = py "1")),
     {| stdin := [py "1"];
        stdout :=
          []
          ++ [[10%N] ++ py "Matching mode:" ++ [10%N];
              py "  1) Overlapping" ++ [10%N];
              py "  2) Non-overlapping" ++ [10%N]]
          ++ flat_map (fun _ => [py "Enter 1 or 2: ";
                                 py "Invalid choice. Please enter 1 or 2."
                                 ++ [10%N]]) (py <$> ["3"; "12"])
          ++ [py "Enter 1 or 2: "] |}).
Proof.
  apply (X14_prompt_overlap_returns_the_first_choice
           {| stdin := py <$> ["3"; "12"; " 2 "; "1"]; stdout := [] |}
           (py <$> ["3"; "12"]) (py " 2 ") [py "1"]);
    [reflexivity | repeat constructor; discriminate | right; reflexivity].
Defined.

(** ** [pretty_counts] *)

Lemma py_inj (s1 s2 : string) : py s1 = py s2 -> s1 = s2.
Proof.
  rw /py. intros H.
  assert (Hinj : Inj (=) (=) Ascii.N_of_ascii).
  { intros a b Hab.
    by rw -(Ascii.ascii_N_embedding a) -(Ascii.ascii_N_embedding b) Hab. }
  apply (list_fmap_eq_inj _ Hinj) in H.
  rw -(String.string_of_list_ascii_of_string s1).
  by rw -(String.string_of_list_ascii_of_string s2) H.
Qed.

Lemma str_of_nat_inj (n m : nat) : str_of_nat n = str_of_nat m -> n = m.
Proof. intros H%py_inj. by apply (inj pretty) in H. Qed.

Lemma pretty_N_char_digit (x : N) :
  is_digit (Ascii.N_of_ascii (pretty_N_char x)) = true.
Proof. rw /pretty_N_char. by repeat case_match. Qed.

Lemma pretty_N_go_digits (x : N) (s : string) :
  Forall (fun c => is_digit c = true) (py s) ->
  Forall (fun c => is_digit c = true) (py (pretty_N_go x s)).
Proof.
  revert s. induction (N.lt_wf_0 x) as [x _ IH]; intros s Hs.
  assert (x = 0 \/ 0 < x)%N as [-> | Hx] by lia.
  - by rw pretty_N_go_0.
  - rw pretty_N_go_step //. apply IH; [by apply N.div_lt|].
    rw /py /=. constructor; [apply pretty_N_char_digit | exact Hs].
Qed.

Lemma str_of_nat_digits (n : nat) :
  Forall (fun c => is_digit c = true) (str_of_nat n).
Proof.
  rw /str_of_nat /pretty /pretty_nat /pretty /pretty_N.
  case_decide; [by repeat constructor|].
  apply pretty_N_go_digits. constructor.
Qed.

(** Digits followed by a text that does not start with a digit. *)
Lemma digits_split (a a' t t' : str) (x : char) :
  Forall (fun c => is_digit c = true) a ->
  Forall (fun c => is_digit c = true) a' ->
  is_digit x = false ->
  a ++ x :: t = a' ++ x :: t' -> a = a' /\ t = t'.
Proof.
  intros Ha. revert a'. induction Ha as [|c a Hc _ IH]; intros a' Ha' Hx Heq.
  - destruct Ha' as [|c' a' Hc' _]; simplify_eq/=; [done|congruence].
  - destruct Ha' as [|c' a' Hc' Ha']; simplify_eq/=; [congruence|].
    destruct (IH a' Ha' Hx) as [-> ->]; done.
Qed.

Lemma join_cons (sep x y : str) (rest : list str) :
  join sep (x :: y :: rest) = x ++ sep ++ join sep (y :: rest).
Proof. done. Qed.

(** X15. The line [pretty_counts] makes for given patterns shows the
    counters without ambiguity: two lists of counters, one for each pattern,
    that give the same line are the same list. *)
Theorem X15_pretty_counts_determines_the_counts
    (ps : list str) (cs cs' : list nat) :
  length cs = length ps -> length cs' = length ps ->
  pretty_counts ps cs = pretty_counts ps cs' -> cs = cs'.
Proof.
  rw /pretty_counts. revert cs cs'.
  induction ps as [|p ps IH]; intros cs cs' Hl Hl' Heq.
  - destruct cs, cs'; done.
  - destruct cs as [|c cs]; [done|]. destruct cs' as [|c' cs']; [done|].
    injection Hl as Hl. injection Hl' as Hl'.
    destruct ps as [|p2 ps].
    + destruct cs, cs'; try done.
      cbn [zip_with join] in Heq. do 2 apply app_inv_head in Heq.
      by apply str_of_nat_inj in Heq as ->.
    + destruct cs as [|c2 cs]; [done|]. destruct cs' as [|c2' cs']; [done|].
      cbn [zip_with] in Heq. rw !join_cons in Heq.
      rw -!(assoc_L (++)) in Heq. do 2 apply app_inv_head in Heq.
      change (py " | ") with (32%N :: py "| ") in Heq.
      apply digits_split in Heq as [Hc Ht];
        [|apply str_of_nat_digits..|done].
      apply str_of_nat_inj in Hc as ->.
      apply app_inv_head in Ht. f_equal.
      by apply (IH (c2 :: cs) (c2' :: cs')); rw /= ?Hl ?Hl'.
Qed.

Lemma X15_witness :
  length [2; 10] = length [py "101"; py "11"]
  /\ ([2; 10] = [2; 10]).
Proof.
  split; [reflexivity|].
  apply (X15_pretty_counts_determines_the_counts
           [py "101"; py "11"] [2; 10] [2; 10]); reflexivity.
Defined.

(** ** [main] *)

Lemma prompt_patterns_loop_clean (lines out pats : list str) :
  clean (prompt_patterns_loop lines out pats).1.
Proof.
  revert out pats. induction lines as [|l lines IH]; intros out pats; [done|].
  cbn [prompt_patterns_loop]. cbn zeta.
  repeat case_decide; try done. by destruct (rejected (strip l)).
Qed.

Lemma prompt_overlap_loop_clean (lines out : list str) :
  clean (prompt_overlap_loop lines out).1.
Proof.
  revert out. induction lines as [|l lines IH]; intros out; [done|].
  cbn [prompt_overlap_loop]. cbn zeta. by repeat case_decide.
Qed.

Lemma feed_print_ok (ps bits : list str) (det : StreamMultiDetector)
    (out : list str) :
  well_formed det = true -> Forall is_bit bits ->
  exists det' out',
    feed_print ps bits det out = (Ok tt, det', out')
    /\ well_formed det' = true
    /\ feed bits det = (Ok tt, det').
Proof.
  intros Hwf Hbits. revert det out Hwf.
  induction Hbits as [|b bits Hb _ IH]; intros det out Hwf.
  - by exists det, out.
  - destruct (step_spec b det Hwf Hb) as (d1 & Hs & _ & _ & Hwf1).
    destruct (IH d1 (print (pretty_counts ps (snapshot d1).1) out) Hwf1)
      as (det' & out' & Hf & Hwf' & Hfeed).
    exists det', out'. by rw /feed /= /bind Hs.
Qed.

Lemma main_turn_safe (ps : list str) (ov : bool) (l : str)
    (det : StreamMultiDetector) (out : list str) :
  well_formed det = true ->
  match (main_turn ps ov l det out).1 with
  | Break => True
  | Continue det' => well_formed det' = true
  | Crash _ => False
  end.
Proof.
  intros Hwf. rw /main_turn. cbn zeta.
  destruct (decide (strip l = [])); [done|].
  destruct (lower_is (strip l) (py "show")); [done|].
  destruct (lower_is (strip l) (py "reset")).
  { destruct (init_spec ps ov) as (d & Hn & _). rw Hn /=.
    by eapply init_well_formed. }
  destruct (existsb _ (strip l)) eqn:Hex; [done|].
  rw existsb_not_bit negb_false_iff in Hex.
  destruct (feed_print_ok ps (chars (strip l)) det out Hwf
              (binary_chars_bits _ Hex)) as (det' & out' & -> & Hwf' & _).
  done.
Qed.

Lemma main_loop_clean (ps : list str) (ov : bool) (lines : list str)
    (det : StreamMultiDetector) (out : list str) :
  well_formed det = true -> clean (main_loop ps ov lines det out).1.
Proof.
  revert det out. induction lines as [|l lines IH]; intros det out Hwf; [done|].
  cbn [main_loop].
  pose proof (main_turn_safe ps ov l det (out ++ [py "bit(s)> "]) Hwf) as Ht.
  destruct (main_turn ps ov l det (out ++ [py "bit(s)> "])) as [[|det'|e] out'];
    [done|by apply IH|done].
Qed.

(** X16. Whatever is typed, [main] ends in one of three ways: it returns
    (after an empty line in the stream loop), it calls [sys.exit(0)] (no
    pattern was given), or [input] finds the input exhausted.  No exception of
    the detector, be it the [ValueError] of [step], a [KeyError] or an
    [IndexError], ever escapes. *)
Theorem X16_main_ends_cleanly (c : console) :
  (main c).1 = Return tt
  \/ (main c).1 = Abort (SystemExit 0)
  \/ (main c).1 = Abort EOFError.
Proof.
  assert (Hclean : clean (main c).1).
  { rw /main. cbn zeta.
    pose proof (prompt_patterns_loop_clean (stdin c)
      (print (py "Enter binary sequences to detect (one per line). Empty line to finish.")
         (print (py "=== Multi Sequence Detector ===") (stdout c))) []) as Hp.
    rw /prompt_patterns /=.
    destruct (prompt_patterns_loop _ _ _) as [[ps|e] c1]; [|done].
    pose proof (prompt_overlap_loop_clean (stdin c1)
      (print (py "  2) Non-overlapping")
         (print (py "  1) Overlapping")
            (print ([10%N] ++ py "Matching mode:") (stdout c1))))) as Ho.
    rw /prompt_overlap.
    destruct (prompt_overlap_loop _ _) as [[ov|e] c2]; [|done].
    destruct (init_spec ps ov) as (d & Hn & _). rw Hn.
    apply main_loop_clean. by eapply init_well_formed. }
  destruct (main c).1 as [[]|[|code|e]]; simpl in Hclean; subst; auto.
  done.
Qed.

Lemma feed_print_length (ps bits : list str) (det : StreamMultiDetector)
    (out : list str) :
  length (feed_print ps bits det out).2 <= length out + length bits.
Proof.
  revert det out. induction bits as [|b bits IH]; intros det out; [simpl; lia|].
  cbn [feed_print]. destruct (step b det) as [[[]|e] d1]; [|simpl; lia].
  etrans; [apply IH|]. rw /print length_app /=. lia.
Qed.




(** ** The two policies compared *)

Lemma occurrences_from_spec (pat seen rest : list str) :
  occurrences pat (seen ++ rest)
  = occurrences pat seen + occurrences_from pat seen rest.
Proof.
  revert seen. induction rest as [|b rest IH]; intros seen.
  - rw app_nil_r /=. lia.
  - rw (cons_middle b seen rest) assoc_L IH occurrences_snoc /=. lia.
Qed.

Lemma occurrences_from_mono (pat x seen rest : list str) :
  occurrences_from pat seen rest <= occurrences_from pat (x ++ seen) rest.
Proof.
  revert seen. induction rest as [|b rest IH]; intros seen; [done|].
  cbn [occurrences_from].
  specialize (IH (seen ++ [b])). rw assoc_L in IH.
  destruct (decide (pat `suffix_of` seen ++ [b])) as [Hs|Hs];
    destruct (decide (pat `suffix_of` (x ++ seen) ++ [b])) as [Hs'|Hs'];
    try lia.
  destruct Hs'. rw -assoc_L. by apply suffix_app_r.
Qed.

Lemma disjoint_le_occurrences_from (pat seen rest : list str) :
  disjoint_occurrences pat seen rest <= occurrences_from pat seen rest.
Proof.
  revert seen. induction rest as [|b rest IH]; intros seen; [done|].
  cbn [disjoint_occurrences occurrences_from].
  destruct (decide (pat `suffix_of` seen ++ [b])) as [Hs|Hs].
  - pose proof (IH []) as H1.
    pose proof (occurrences_from_mono pat (seen ++ [b]) [] rest) as H2.
    rw app_nil_r in H2. lia.
  - apply IH.
Qed.

(** X18. For the same patterns and the same valid bits, no counter of the
    non-overlapping detector is above the counter the overlapping detector
    has for that pattern. *)
Theorem X18_non_overlap_counts_at_most_overlap
    (ps : list str) (i : nat) (p : str) (bits : list str) :
  ps !! i = Some p -> Forall is_bit bits ->
  exists n0 n o0 o cn co,
    __init__ ps false = Ok n0 /\ feed bits n0 = (Ok tt, n)
    /\ __init__ ps true = Ok o0 /\ feed bits o0 = (Ok tt, o)
    /\ counts n !! i = Some cn /\ counts o !! i = Some co
    /\ cn <= co.
Proof.
  intros Hp Hbits.
  destruct (reach_auto ps false i p bits Hp Hbits)
    as (n0 & n & Hn0 & Hn & _ & Hcn).
  destruct (reach_auto ps true i p bits Hp Hbits)
    as (o0 & o & Ho0 & Ho & _ & Hco).
  eexists n0, n, o0, o, _, _. repeat (split; [done|]).
  rw -(chars_length (strip p)).
  rw (disjoint_run (chars (strip p)) [] bits 0 0) /=;
    [|left; split; [done|by right]].
  destruct (overlap_run (chars (strip p)) bits) as [_ ->].
  pose proof (occurrences_from_spec (chars (strip p)) [] bits) as Hspec.
  pose proof (disjoint_le_occurrences_from (chars (strip p)) [] bits).
  change (occurrences (chars (strip p)) []) with 0 in Hspec.
  rw /= in Hspec. lia.
Qed.

Lemma X18_witness :
  exists n0 n o0 o cn co,
    __init__ [py "11"] false = Ok n0 /\ feed (chars (py "1111")) n0 = (Ok tt, n)
    /\ __init__ [py "11"] true = Ok o0 /\ feed (chars (py "1111")) o0 = (Ok tt, o)
    /\ counts n !! 0 = Some cn /\ counts o !! 0 = Some co
    /\ cn <= co.
Proof.
  apply (X18_non_overlap_counts_at_most_overlap
           [py "11"] 0 (py "11") (chars (py "1111")));
    [reflexivity | solve_bits].
Defined.
